(** * The streaming-value runtime of the product-list workshop

    A shallow embedding of [useStreamable], [isPromise], [UseStreamable],
    [Stream] and the module-level [promiseCache] (the final listing of the
    workshop text), together with the properties the specification states
    about them.

    JavaScript promises are heap objects with an identity and a one-shot
    state; the cache is a [Map<string, Promise<unknown>>] shared by every
    call.  Both live in an explicit [world] that every operation threads
    through a small state-and-exception monad whose three outcomes are the
    specification's [Ready | Pending | Failed].

    The earlier listings of the workshop (the keyless resolver, the one
    that wraps every value in [Promise.resolve], the boundary written by
    hand, the page) and the sections of the product list are embedded after
    the final one and compared with it. *)

From stdpp Require Import gmap strings list fin_maps.

Open Scope string_scope.

(** ** Values *)

(** A promise is identified by its heap reference. *)
Definition loc := nat.

(** The JavaScript values a [Streamable<T>] can hold.  [VPromise] is an
    instance of the native [Promise] class; [VThenable] is an object that
    has a [then] method but was not built by the [Promise] constructor. *)
Inductive jsval :=
| VUndefined
| VNum (n : Z)
| VStr (s : string)
| VArr (items : list Z)
| VThenable (id : nat)
| VPromise (ref : loc).

(** The three states of a promise. *)
Inductive pstate :=
| PPending
| PFulfilled (v : jsval)
| PRejected (e : jsval).

Definition settled (st : pstate) : bool :=
  match st with PPending => false | _ => true end.

(** The calls the code makes to its collaborators, in program order:
    [console.log], the three [Map] methods, [Promise.resolve] and React's
    [use]. *)
Inductive event :=
| ELog (args : list string)
| EHas (key : string)
| ESet (key : string) (p : loc)
| EGet (key : string)
| EPromiseResolve (v : jsval)
| EUse (v : jsval).

(** ** The shared state *)

Record world := World {
  promises : gmap loc pstate;        (* the promise objects that exist *)
  promiseCache : gmap string loc;    (* const promiseCache = new Map() *)
  trace : list event                 (* collaborator calls made so far *)
}.

(** Module load: an empty [Map], no promise built, nothing called. *)
Definition initial : world := World ∅ ∅ [].

(** A reference that was never allocated behaves as a promise that never
    settles. *)
Definition state_of (w : world) (p : loc) : pstate :=
  default PPending (promises w !! p).

(** ** Outcomes and the monad *)

(** A call returns, suspends on a promise (React's [use] throws it), or
    throws an error. *)
Inductive result (A : Type) :=
| Ready (a : A)
| Pending (handle : loc)
| Failed (error : jsval).
Arguments Ready {A} a.
Arguments Pending {A} handle.
Arguments Failed {A} error.

Definition is_pending {A} (r : result A) : bool :=
  match r with Pending _ => true | _ => false end.

Definition M (A : Type) : Type := world -> result A * world.

Definition ret {A} (a : A) : M A := fun w => (Ready a, w).

Definition throw {A} (e : jsval) : M A := fun w => (Failed e, w).

Definition bind {A B} (m : M A) (k : A -> M B) : M B :=
  fun w =>
    match m w with
    | (Ready a, w') => k a w'
    | (Pending p, w') => (Pending p, w')
    | (Failed e, w') => (Failed e, w')
    end.

Declare Scope js_scope.
Delimit Scope js_scope with js.
Notation "x <- m ;; k" := (bind m (fun x => k))
  (at level 100, m at next level, right associativity) : js_scope.
Notation "m ;; k" := (bind m (fun _ => k))
  (at level 100, right associativity) : js_scope.
Open Scope js_scope.

Definition emit (e : event) : M unit :=
  fun w => (Ready tt, World (promises w) (promiseCache w) (app (trace w) [e])).

(** ** Collaborators *)

Definition console_log (args : list string) : M unit := emit (ELog args).

(** [promiseCache.has(key)] *)
Definition Map_has (key : string) : M bool :=
  emit (EHas key);;
  fun w => (Ready (bool_decide (is_Some (promiseCache w !! key))), w).

(** [promiseCache.set(key, p)] *)
Definition Map_set (key : string) (p : loc) : M unit :=
  emit (ESet key p);;
  fun w => (Ready tt, World (promises w) (<[key := p]> (promiseCache w)) (trace w)).

(** [promiseCache.get(key) as Promise<T>]: the stored promise, or
    [undefined] when the key is absent (the cast changes nothing at run
    time). *)
Definition Map_get (key : string) : M jsval :=
  emit (EGet key);;
  fun w => (Ready (from_option VPromise VUndefined (promiseCache w !! key)), w).

(** [new Promise(...)] in state [st], at a reference not yet in use. *)
Definition alloc (st : pstate) : M loc :=
  fun w =>
    let p := fresh (dom (promises w)) in
    (Ready p, World (<[p := st]> (promises w)) (promiseCache w) (trace w)).

(** [Promise.resolve(v)]: a native promise is returned as it is; a thenable
    gets a new promise that follows it; any other value gets a new promise
    already fulfilled with it. *)
Definition Promise_resolve (v : jsval) : M loc :=
  emit (EPromiseResolve v);;
  match v with
  | VPromise p => ret p
  | VThenable _ => alloc PPending
  | _ => alloc (PFulfilled v)
  end.

(** Modelled from the spec: the host's suspend primitive (React's [use]),
    which is not part of this repository.  Following section 9 of the
    specification, resolution of a promise returns its value when it is
    fulfilled, signals suspension with the promise as handle while it is
    pending, and fails with the rejection's error when it is rejected.
    Anything that is not a promise is refused. *)
Definition outcome (st : pstate) (p : loc) : result jsval :=
  match st with
  | PPending => Pending p
  | PFulfilled x => Ready x
  | PRejected e => Failed e
  end.

Definition use (v : jsval) : M jsval :=
  emit (EUse v);;
  match v with
  | VPromise p => fun w => (outcome (state_of w p) p, w)
  | _ => throw (VStr "An unsupported type was passed to use()")
  end.

(** ** The code *)

(** [value instanceof Promise] *)
Definition isPromise (value : jsval) : bool :=
  match value with VPromise _ => true | _ => false end.

(** The cache step of [useStreamable]:
<<
  if(!promiseCache.has(key)) {
    console.log("first time using streamable", key);
    promiseCache.set(key, Promise.resolve(streamable));
  }
  ... promiseCache.get(key) as Promise<T>
>>
    The factory of the specification's [get_or_create] is
    [() => Promise.resolve(streamable)]. *)
Definition get_or_create (key : string) (streamable : jsval) : M jsval :=
  cached <- Map_has key;;
  (if negb cached then
     console_log ["first time using streamable"; key];;
     p <- Promise_resolve streamable;;
     Map_set key p
   else ret tt);;
  Map_get key.

Definition useStreamable (streamable : jsval) (key : string) : M jsval :=
  console_log ["useStreamable"; key];;
  if negb (isPromise streamable) then ret streamable
  else p <- get_or_create key streamable;; use p.

(** ** Views *)

(** A [React.ReactNode], as far as the boundary is concerned: markup,
    nothing, two siblings, a [<Suspense>] boundary, the element
    [<UseStreamable value queryKey>{children}</UseStreamable>], and markup
    whose render throws.  The last one also stands for what a render
    function that throws hands back: the error leaves the render of the
    enclosing element either way. *)
Inductive node :=
| NNull
| NText (s : string)
| NSeq (a b : node)
| NSuspense (fallback : node) (child : node)
| NUseStreamable (value : jsval) (queryKey : string) (children : jsval -> node)
| NThrow (error : jsval).

(** What ends up on the page. *)
Definition view := list string.

(** The function component [UseStreamable]:
    [return children(useStreamable(value, queryKey))]. *)
Definition UseStreamable (value : jsval) (children : jsval -> node)
    (queryKey : string) : M node :=
  x <- useStreamable value queryKey;; ret (children x).

Record StreamProps := {
  value : jsval;
  fallback : option node;           (* fallback?: React.ReactNode *)
  children : jsval -> node;
  queryKey : string
}.

(** The function component [Stream]. *)
Definition Stream (props : StreamProps) : node :=
  NSuspense (default NNull (fallback props))
    (NUseStreamable (value props) (queryKey props) (children props)).

(** Modelled from the spec: the host rendering engine and its suspend
    boundary, which are not part of this repository.  Rendering an element
    of a function component runs the component and renders what it returns;
    a boundary renders its child and, when that signals suspension, renders
    its fallback instead; an error is not the boundary's to catch. *)
Fixpoint render (n : node) : M view :=
  match n with
  | NNull => ret []
  | NText s => ret [s]
  | NSeq a b => va <- render a;; vb <- render b;; ret (app va vb)
  | NSuspense fb child =>
      fun w =>
        match render child w with
        | (Pending _, w') => render fb w'
        | r => r
        end
  | NUseStreamable v k ch => x <- useStreamable v k;; render (ch x)
  | NThrow e => throw e
  end.

(** ** Sessions *)

(** What happens to the shared state during a session: the producer builds
    a promise, a promise settles, a render attempt calls the resolver, a
    view is rendered. *)
Inductive action :=
| ANewPromise
| AFulfill (p : loc) (v : jsval)
| AReject (p : loc) (e : jsval)
| AResolve (streamable : jsval) (key : string)
| ARender (n : node).

(** Settling is one-shot: only a pending promise changes state. *)
Definition settle (p : loc) (st : pstate) (w : world) : world :=
  match promises w !! p with
  | Some PPending => World (<[p := st]> (promises w)) (promiseCache w) (trace w)
  | _ => w
  end.

Definition step (a : action) (w : world) : world :=
  match a with
  | ANewPromise => snd (alloc PPending w)
  | AFulfill p v => settle p (PFulfilled v) w
  | AReject p e => settle p (PRejected e) w
  | AResolve s k => snd (useStreamable s k w)
  | ARender n => snd (render n w)
  end.

Fixpoint run (acts : list action) (w : world) : world :=
  match acts with
  | [] => w
  | a :: rest => run rest (step a w)
  end.

(** How often [Promise.resolve] was called. *)
Fixpoint creations (tr : list event) : nat :=
  match tr with
  | [] => 0
  | EPromiseResolve _ :: rest => S (creations rest)
  | _ :: rest => creations rest
  end.

(** Whether a call touched the cache. *)
Definition is_cache_event (e : event) : bool :=
  match e with
  | EHas _ | ESet _ _ | EGet _ => true
  | _ => false
  end.

(** A view all of whose resolver elements use a key in [K]. *)
Fixpoint node_keys (K : string -> Prop) (n : node) : Prop :=
  match n with
  | NNull | NText _ => True
  | NSeq a b => node_keys K a /\ node_keys K b
  | NSuspense fb child => node_keys K fb /\ node_keys K child
  | NUseStreamable _ k ch => K k /\ forall x, node_keys K (ch x)
  | NThrow _ => True
  end.

Definition node_about (k : string) : node -> Prop :=
  node_keys (fun k' => k' = k).

(** A view without resolver elements and without markup that throws, and
    the markup it renders to. *)
Fixpoint static (n : node) : Prop :=
  match n with
  | NNull | NText _ => True
  | NSeq a b => static a /\ static b
  | NSuspense fb child => static fb /\ static child
  | NUseStreamable _ _ _ | NThrow _ => False
  end.

Fixpoint markup (n : node) : view :=
  match n with
  | NNull => []
  | NText s => [s]
  | NSeq a b => app (markup a) (markup b)
  | NSuspense _ child => markup child
  | NUseStreamable _ _ _ | NThrow _ => []
  end.

(** What a boundary around static views shows for an outcome of the
    resolver. *)
Definition shown (props : StreamProps) (r : result jsval) : result view :=
  match r with
  | Ready x => Ready (markup (children props x))
  | Pending _ => Ready (markup (default NNull (fallback props)))
  | Failed e => Failed e
  end.

(** A session step whose render attempts all use the key [k]. *)
Definition about_key (k : string) (a : action) : Prop :=
  match a with
  | AResolve _ k' => k' = k
  | ARender n => node_about k n
  | _ => True
  end.

(** The trace after a call: what was there, then the new calls. *)
Definition logged (w : world) (evs : list event) : world :=
  World (promises w) (promiseCache w) (app (trace w) evs).

(** Two-state properties that every call of a computation keeps. *)
Definition preserves (R : world -> world -> Prop) {A} (m : M A) : Prop :=
  forall w, R w (snd (m w)).

(** No promise is built and none changes state. *)
Definition same_promises (w w' : world) : Prop := promises w' = promises w.

(** No cache entry is removed or replaced. *)
Definition cache_grows (w w' : world) : Prop :=
  forall k p, promiseCache w !! k = Some p -> promiseCache w' !! k = Some p.

(** Entries other than the one for [k0] are what they were. *)
Definition cache_frame (k0 : string) (w w' : world) : Prop :=
  forall k, k <> k0 -> promiseCache w' !! k = promiseCache w !! k.

(** Wrapper creations so far, plus the one still possible for [k]. *)
Definition budget (k : string) (w : world) : nat :=
  creations (trace w) +
  match promiseCache w !! k with Some _ => 0 | None => 1 end.

Definition budget_le (k : string) (w w' : world) : Prop :=
  budget k w' <= budget k w.

(** A settled promise keeps its state. *)
Definition settled_kept (w w' : world) : Prop :=
  forall p, settled (state_of w p) = true -> state_of w' p = state_of w p.

(** ** The product list *)

(** [productsData.map((product) => <ProductCard ... />)]: a card per
    product. *)
Fixpoint cards (items : list Z) : node :=
  match items with
  | [] => NNull
  | _ :: rest => NSeq (NText "ProductCard") (cards rest)
  end.

(** ** Sessions used in the examples

    The producer builds promise 0, a render attempt resolves it under the
    key "products" and suspends, then the promise fulfils with 1. *)
Definition products_cached : world :=
  run [ANewPromise; AResolve (VPromise 0) "products"; AFulfill 0 (VNum 1)]
    initial.

(** A session in which the key "products" is reused for a second request:
    its entry is the first promise, already fulfilled with 1, and the
    producer has built a new promise, 1, still pending. *)
Definition products_reused : world := step ANewPromise products_cached.

(** The key "reviews" holds the pending promise 1. *)
Definition reviews_pending : world :=
  snd (useStreamable (VPromise 1) "reviews" products_reused).

(** ** The markup of the product list

    The sections [ProductListSkeleton], [ProductListEmptyState] and the
    render function of [ProductList], as the final listing has them.  The
    styled markup is reduced to its leaves: a placeholder card, a product
    card, the two texts of the empty state.  The props that only reach
    class names and the styling of a card ([className], [colorScheme],
    [aspectRatio]) are left out. *)

(** [Array.from({ length: n }).map(() => <leaf />)] *)
Fixpoint row (n : nat) (leaf : string) : node :=
  match n with
  | 0 => NNull
  | S m => NSeq (NText leaf) (row m leaf)
  end.

(** [{text}] in markup: nothing for [undefined]. *)
Definition optional_text (text : option string) : node :=
  from_option NText NNull text.

(** [ProductListSkeleton({ className, placeholderCount = 8 })] *)
Definition ProductListSkeleton (placeholderCount : option nat) : node :=
  row (default 8 placeholderCount) "ProductCardSkeleton".

(** [ProductListEmptyState({ className, placeholderCount = 8,
    emptyStateTitle, emptyStateSubtitle })] *)
Definition ProductListEmptyState (placeholderCount : option nat)
    (emptyStateTitle emptyStateSubtitle : option string) : node :=
  NSeq (row (default 8 placeholderCount) "ProductCardSkeleton")
    (NSeq (optional_text emptyStateTitle) (optional_text emptyStateSubtitle)).

(** The display props of [ProductList] that reach the markup, [None] for a
    prop the caller did not pass. *)
Record DisplayProps := {
  emptyStateTitle : option string;       (* = "No products found" *)
  emptyStateSubtitle : option string;    (* = "Try browsing our ..." *)
  placeholderCount : option nat          (* = 8 *)
}.

(** The errors JavaScript raises in the render function for a value that
    is not an array. *)
Definition length_of_undefined : jsval :=
  VStr "TypeError: Cannot read properties of undefined (reading 'length')".

Definition map_is_not_a_function : jsval :=
  VStr "TypeError: productsData.map is not a function".

(** The render function of [ProductList], with the defaults of the
    destructured props applied:
<<
  (productsData) => {
    if (productsData.length === 0) return <ProductListEmptyState ... />;
    return ... productsData.map((product) => <ProductCard ... />) ...
  }
>>
    The type of [productsData] is [Product[]], but nothing checks it at run
    time: reading [length] of [undefined] throws; an empty string has
    length 0 and gets the empty state; any other value that is not an array
    passes the test and has no [map] to call. *)
Definition ProductListBody (d : DisplayProps) (productsData : jsval) : node :=
  let empty_state :=
    ProductListEmptyState
      (Some (default 8 (placeholderCount d)))
      (Some (default "No products found" (emptyStateTitle d)))
      (Some (default "Try browsing our complete catalog of products."
               (emptyStateSubtitle d))) in
  match productsData with
  | VArr items =>
      if (length items =? 0)%nat then empty_state else cards items
  | VUndefined => NThrow length_of_undefined
  | VStr s =>
      if (String.length s =? 0)%nat then empty_state
      else NThrow map_is_not_a_function
  | VNum _ | VThenable _ | VPromise _ => NThrow map_is_not_a_function
  end.

(** What the render function puts on the page for an array of products. *)
Definition listing (d : DisplayProps) (items : list Z) : view :=
  match items with
  | [] =>
      app (replicate (default 8 (placeholderCount d)) "ProductCardSkeleton")
        [default "No products found" (emptyStateTitle d);
         default "Try browsing our complete catalog of products."
           (emptyStateSubtitle d)]
  | _ => replicate (length items) "ProductCard"
  end.

(** What rendering the render function's result comes to, for any value. *)
Definition listing_of (d : DisplayProps) (productsData : jsval) : result view :=
  match productsData with
  | VArr items => Ready (listing d items)
  | VUndefined => Failed length_of_undefined
  | VStr s =>
      if (String.length s =? 0)%nat then Ready (listing d [])
      else Failed map_is_not_a_function
  | VNum _ | VThenable _ | VPromise _ => Failed map_is_not_a_function
  end.

(** Modelled from the spec: the host's suspend boundary of [render], as a
    combinator on render computations, for the listings whose components
    are given as computations. *)
Definition Suspense (fallback child : M view) : M view :=
  fun w =>
    match child w with
    | (Pending _, w') => fallback w'
    | r => r
    end.

(** ** The final listing of [ProductList] *)

Module Final.

Record ProductListProps := {
  products : jsval;
  display : DisplayProps;
  queryKey : string
}.

(** [<Stream value={products} fallback={<ProductListSkeleton />}
      queryKey={queryKey}>{(productsData) => ...}</Stream>] *)
Definition ProductList (props : ProductListProps) : node :=
  Stream (Build_StreamProps (products props)
            (Some (ProductListSkeleton None))
            (ProductListBody (display props))
            (queryKey props)).

End Final.

(** ** The first abstraction: no key, no cache *)

Module Direct.

(** [return isPromise(streamable) ? use(streamable) : streamable;] *)
Definition useStreamable (streamable : jsval) : M jsval :=
  if isPromise streamable then use streamable else ret streamable.

(** [return children(useStreamable(value));] *)
Definition UseStreamable (value : jsval) (children : jsval -> node) : M node :=
  x <- useStreamable value;; ret (children x).

(** [<Suspense fallback={fallback}>
       <UseStreamable value={value}>{children}</UseStreamable>
     </Suspense>], as the computation that renders it. *)
Definition Stream (value : jsval) (fallback : option node)
    (children : jsval -> node) : M view :=
  Suspense (render (default NNull fallback))
    (n <- UseStreamable value children;; render n).

Record ProductListProps := {
  products : jsval;
  display : DisplayProps
}.

Definition ProductList (props : ProductListProps) : M view :=
  Stream (products props) (Some (ProductListSkeleton None))
    (ProductListBody (display props)).

(** The page: a promise built on every render, settled by a timer later,
    the heading, and the list.
<<
  const products = new Promise(res => setTimeout(..., 2000));
  return (<div><h1>My Products</h1><ProductList products={products} .../></div>);
>> *)
Definition Home : M view :=
  products <- alloc PPending;;
  h1 <- render (NText "My Products");;
  list <- ProductList {| products := VPromise products;
                         display := Build_DisplayProps None None None |};;
  ret (app h1 list).

End Direct.

(** ** The version that wraps every value *)

Module Uncached.

(** [return use(Promise.resolve(streamable));] *)
Definition useStreamable (streamable : jsval) : M jsval :=
  p <- Promise_resolve streamable;; use (VPromise p).

End Uncached.

(** ** Before the abstraction: [use] in the component, the boundary by hand *)

Module Inline.

(** [const productsData = products instanceof Promise ? use(products) :
    products;] followed by the markup. *)
Definition ProductList (props : Direct.ProductListProps) : M view :=
  productsData <-
    (if isPromise (Direct.products props) then use (Direct.products props)
     else ret (Direct.products props));;
  render (ProductListBody (Direct.display props) productsData).

(** [<Suspense fallback={<ProductListSkeleton />}>
       <ProductList {...props}/>
     </Suspense>] *)
Definition ProductListWrapper (props : Direct.ProductListProps) : M view :=
  Suspense (render (ProductListSkeleton None)) (ProductList props).

End Inline.

(** The values handed to [use], in order. *)
Fixpoint uses (tr : list event) : list jsval :=
  match tr with
  | [] => []
  | EUse v :: rest => v :: uses rest
  | _ :: rest => uses rest
  end.

(** A session step whose render attempts all use keys in [K]. *)
Definition action_keys (K : string -> Prop) (a : action) : Prop :=
  match a with
  | AResolve _ k => K k
  | ARender n => node_keys K n
  | _ => True
  end.

(** Every entry was there before or is under a key in [K]. *)
Definition cache_within (K : string -> Prop) (w w' : world) : Prop :=
  forall k, is_Some (promiseCache w' !! k) ->
            is_Some (promiseCache w !! k) \/ K k.

(** * Properties *)

(** ** The three paths of [useStreamable] *)

Lemma useStreamable_sync s k w :
  isPromise s = false ->
  useStreamable s k w = (Ready s, logged w [ELog ["useStreamable"; k]]).
Proof. destruct s; intros Hs; try discriminate Hs; reflexivity. Qed.

Lemma useStreamable_hit s k p w :
  isPromise s = true ->
  promiseCache w !! k = Some p ->
  useStreamable s k w =
    (outcome (state_of w p) p,
     logged w [ELog ["useStreamable"; k]; EHas k; EGet k; EUse (VPromise p)]).
Proof.
  destruct s; intros Hs Hk; try discriminate Hs.
  unfold useStreamable, get_or_create, Map_has, Map_get, use, console_log,
    emit, bind, ret, logged, state_of; simpl.
  repeat (rewrite Hk; simpl). by rewrite <- !app_assoc.
Qed.

Lemma useStreamable_miss p k w :
  promiseCache w !! k = None ->
  useStreamable (VPromise p) k w =
    (outcome (state_of w p) p,
     World (promises w) (<[k := p]> (promiseCache w))
       (app (trace w)
          [ELog ["useStreamable"; k]; EHas k;
           ELog ["first time using streamable"; k];
           EPromiseResolve (VPromise p); ESet k p; EGet k;
           EUse (VPromise p)])).
Proof.
  intros Hk.
  unfold useStreamable, get_or_create, Map_has, Map_get, Map_set,
    Promise_resolve, use, console_log, emit, bind, ret, state_of; simpl.
  repeat (rewrite Hk; simpl). rewrite lookup_insert_eq; simpl.
  by rewrite <- !app_assoc.
Qed.

(** Every call of the resolver takes one of the three paths. *)
Ltac resolver_paths s k w :=
  let Hs := fresh "Hs" in
  let Hk := fresh "Hk" in
  let q := fresh "q" in
  destruct (isPromise s) eqn:Hs;
  [ destruct (promiseCache w !! k) as [q|] eqn:Hk;
    [ rewrite (useStreamable_hit s k q w Hs Hk)
    | destruct s; try discriminate Hs; rewrite (useStreamable_miss _ k w Hk) ]
  | rewrite (useStreamable_sync s k w Hs) ].

Lemma creations_app tr1 tr2 :
  creations (app tr1 tr2) = creations tr1 + creations tr2.
Proof.
  induction tr1 as [|e tr1 IH]; [reflexivity|].
  destruct e; simpl; rewrite IH; reflexivity.
Qed.

(** ** What a call of the resolver leaves alone *)

Lemma useStreamable_same_promises s k : preserves same_promises (useStreamable s k).
Proof. intros w. unfold same_promises. resolver_paths s k w; reflexivity. Qed.

Lemma useStreamable_cache_grows s k : preserves cache_grows (useStreamable s k).
Proof.
  intros w k' p Hp. resolver_paths s k w; simpl; try exact Hp.
  destruct (decide (k = k')) as [->|Hne]; [congruence|].
  by rewrite lookup_insert_ne.
Qed.

Lemma useStreamable_cache_frame s k : preserves (cache_frame k) (useStreamable s k).
Proof.
  intros w k' Hne. resolver_paths s k w; simpl; try reflexivity.
  by rewrite lookup_insert_ne.
Qed.

Lemma useStreamable_budget s k : preserves (budget_le k) (useStreamable s k).
Proof.
  intros w. unfold budget_le, budget.
  resolver_paths s k w; simpl; rewrite creations_app; simpl.
  - rewrite ?Hk. lia.
  - rewrite lookup_insert_eq, ?Hk. lia.
  - lia.
Qed.

(** ** Lifting a two-state property to views and sessions *)

Section Invariant.
Variable R : world -> world -> Prop.
Variable K : string -> Prop.
Hypothesis R_refl : forall w, R w w.
Hypothesis R_trans : forall w1 w2 w3, R w1 w2 -> R w2 w3 -> R w1 w3.
Hypothesis R_resolver : forall s k, K k -> preserves R (useStreamable s k).

Lemma bind_keeps {A B} (m : M A) (f : A -> M B) :
  preserves R m -> (forall a, preserves R (f a)) -> preserves R (bind m f).
Proof.
  intros Hm Hf w. unfold bind. specialize (Hm w).
  destruct (m w) as [[a|h|e] w1]; simpl in *; [|assumption..].
  eapply R_trans; [exact Hm | apply Hf].
Qed.

Lemma ret_keeps {A} (a : A) : preserves R (ret a).
Proof. intros w. apply R_refl. Qed.

Lemma render_keeps n : node_keys K n -> preserves R (render n).
Proof.
  induction n as [| s | a IHa b IHb | fb IHfb c IHc | v k ch IH | e];
    simpl; intros Hn.
  - apply ret_keeps.
  - apply ret_keeps.
  - destruct Hn as [Ha Hb].
    apply bind_keeps; [auto|]. intros va.
    apply bind_keeps; [auto|]. intros vb. apply ret_keeps.
  - destruct Hn as [Hfb Hc]. intros w.
    pose proof (IHc Hc w) as H1.
    destruct (render c w) as [[x|h|e] w1]; simpl in *; try assumption.
    eapply R_trans; [exact H1 | apply IHfb; assumption].
  - destruct Hn as [Hk Hch].
    apply bind_keeps; [apply R_resolver; assumption|].
    intros x. apply IH, Hch.
  - intros w. apply R_refl.
Qed.
End Invariant.

Lemma node_keys_any n : node_keys (fun _ => True) n.
Proof. induction n; simpl; auto. Qed.

Lemma render_same_promises n : preserves same_promises (render n).
Proof.
  apply (render_keeps same_promises (fun _ => True)).
  - reflexivity.
  - unfold same_promises; congruence.
  - intros; apply useStreamable_same_promises.
  - apply node_keys_any.
Qed.

Lemma render_cache_grows n : preserves cache_grows (render n).
Proof.
  apply (render_keeps cache_grows (fun _ => True)).
  - intros w k p H; exact H.
  - unfold cache_grows; auto.
  - intros; apply useStreamable_cache_grows.
  - apply node_keys_any.
Qed.

Lemma render_budget k n : node_about k n -> preserves (budget_le k) (render n).
Proof.
  apply (render_keeps (budget_le k) (fun k' => k' = k)).
  - unfold budget_le; lia.
  - unfold budget_le; lia.
  - intros s k' ->. apply useStreamable_budget.
Qed.

Lemma run_app acts1 acts2 w : run (app acts1 acts2) w = run acts2 (run acts1 w).
Proof. revert w; induction acts1 as [|a acts1 IH]; simpl; auto. Qed.

Lemma run_keeps (R : world -> world -> Prop) (A : action -> Prop) :
  (forall w, R w w) ->
  (forall w1 w2 w3, R w1 w2 -> R w2 w3 -> R w1 w3) ->
  (forall a w, A a -> R w (step a w)) ->
  forall acts w, Forall A acts -> R w (run acts w).
Proof.
  intros Hrefl Htrans Hstep acts.
  induction acts as [|a acts IH]; simpl; intros w Hall; [apply Hrefl|].
  inversion Hall as [|? ? Ha Hrest]; subst.
  eapply Htrans; [apply Hstep, Ha | apply IH, Hrest].
Qed.

Lemma settle_cache p st w : promiseCache (settle p st w) = promiseCache w.
Proof. unfold settle. destruct (promises w !! p) as [[| |]|]; reflexivity. Qed.

Lemma settle_trace p st w : trace (settle p st w) = trace w.
Proof. unfold settle. destruct (promises w !! p) as [[| |]|]; reflexivity. Qed.

Lemma settle_settled_kept p st w : settled_kept w (settle p st w).
Proof.
  intros q Hq. unfold settle.
  destruct (promises w !! p) as [[| |]|] eqn:Hp; try reflexivity.
  unfold state_of in *; simpl.
  destruct (decide (p = q)) as [->|Hne].
  - rewrite Hp in Hq. discriminate Hq.
  - by rewrite lookup_insert_ne.
Qed.

Lemma alloc_settled_kept st w : settled_kept w (snd (alloc st w)).
Proof.
  intros q Hq. unfold state_of in *; simpl.
  destruct (promises w !! q) as [stq|] eqn:Hlook; [|discriminate Hq].
  rewrite lookup_insert_ne, Hlook; [reflexivity|].
  intros Heq. apply (is_fresh (dom (promises w))).
  rewrite Heq. apply elem_of_dom. eauto.
Qed.

Lemma same_promises_settled_kept w w' : same_promises w w' -> settled_kept w w'.
Proof. intros H q _. unfold state_of. by rewrite H. Qed.

Lemma step_settled_kept a w : settled_kept w (step a w).
Proof.
  destruct a; simpl.
  - apply alloc_settled_kept.
  - apply settle_settled_kept.
  - apply settle_settled_kept.
  - apply same_promises_settled_kept, useStreamable_same_promises.
  - apply same_promises_settled_kept, render_same_promises.
Qed.

Lemma step_cache_grows a w : cache_grows w (step a w).
Proof.
  destruct a; simpl; intros k q Hq.
  - exact Hq.
  - by rewrite settle_cache.
  - by rewrite settle_cache.
  - by apply useStreamable_cache_grows.
  - by apply render_cache_grows.
Qed.

Lemma step_budget k a w : about_key k a -> budget_le k w (step a w).
Proof.
  unfold budget_le, budget. destruct a; simpl; intros Ha.
  - lia.
  - rewrite settle_cache, settle_trace. lia.
  - rewrite settle_cache, settle_trace. lia.
  - subst. apply useStreamable_budget.
  - by apply render_budget.
Qed.

Lemma run_settled_kept acts w : settled_kept w (run acts w).
Proof.
  apply (run_keeps settled_kept (fun _ => True)).
  - intros w0 q _; reflexivity.
  - intros w1 w2 w3 H12 H23 q Hq.
    rewrite (H23 q); [apply H12, Hq|]. by rewrite (H12 q Hq).
  - intros; apply step_settled_kept.
  - apply Forall_forall; auto.
Qed.

Lemma run_cache_grows acts w : cache_grows w (run acts w).
Proof.
  apply (run_keeps cache_grows (fun _ => True)).
  - intros w0 k p H; exact H.
  - unfold cache_grows; auto.
  - intros; apply step_cache_grows.
  - apply Forall_forall; auto.
Qed.

Lemma run_budget k acts w :
  Forall (about_key k) acts -> budget_le k w (run acts w).
Proof.
  apply (run_keeps (budget_le k) (about_key k)).
  - unfold budget_le; lia.
  - unfold budget_le; lia.
  - intros; by apply step_budget.
Qed.

(** ** The cache step *)

Lemma Promise_resolve_ready s w :
  exists p ps,
    Promise_resolve s w =
      (Ready p, World ps (promiseCache w) (app (trace w) [EPromiseResolve s])).
Proof. destruct s; simpl; eexists _, _; reflexivity. Qed.

Lemma get_or_create_hit k s p w :
  promiseCache w !! k = Some p ->
  get_or_create k s w = (Ready (VPromise p), logged w [EHas k; EGet k]).
Proof.
  intros Hk.
  unfold get_or_create, Map_has, Map_get, emit, bind, ret, logged; simpl.
  repeat (rewrite Hk; simpl). by rewrite <- !app_assoc.
Qed.

Lemma get_or_create_miss k s w :
  promiseCache w !! k = None ->
  exists p ps,
    get_or_create k s w =
      (Ready (VPromise p),
       World ps (<[k := p]> (promiseCache w))
         (app (trace w)
            [EHas k; ELog ["first time using streamable"; k];
             EPromiseResolve s; ESet k p; EGet k])).
Proof.
  intros Hk.
  destruct (Promise_resolve_ready s
    (logged w [EHas k; ELog ["first time using streamable"; k]]))
    as (p & ps & Hres).
  exists p, ps.
  unfold get_or_create, Map_has, Map_get, Map_set, console_log, emit, bind,
    ret, logged in *; simpl in *.
  repeat (rewrite Hk; simpl).
  rewrite <- !app_assoc in Hres; simpl in Hres.
  rewrite <- !app_assoc; simpl. rewrite Hres; simpl.
  rewrite lookup_insert_eq; simpl. by rewrite <- !app_assoc.
Qed.

Lemma useStreamable_fst_ext s k w w' :
  promiseCache w' !! k = promiseCache w !! k ->
  promises w' = promises w ->
  fst (useStreamable s k w') = fst (useStreamable s k w).
Proof.
  intros Hc Hp.
  resolver_paths s k w.
  - rewrite (useStreamable_hit s k q w'); [|assumption|congruence].
    unfold state_of. by rewrite Hp.
  - rewrite (useStreamable_miss _ k w'); [|congruence].
    unfold state_of. by rewrite Hp.
  - by rewrite (useStreamable_sync s k w').
Qed.

(** ** Synchronous values *)

(** C3: for every synchronous (non-promise) value [v] and every key [k],
    [useStreamable v k] returns [v] itself, does not suspend, and does not
    interact with the cache: the one call it makes is [console.log], so the
    cache is neither read nor written and no promise is built. *)
Theorem C3_sync_value_returned_directly (v : jsval) (k : string) (w : world) :
  isPromise v = false ->
  fst (useStreamable v k w) = Ready v /\
  is_pending (fst (useStreamable v k w)) = false /\
  (exists evs, snd (useStreamable v k w) = logged w evs /\
               existsb is_cache_event evs = false) /\
  promiseCache (snd (useStreamable v k w)) = promiseCache w /\
  promises (snd (useStreamable v k w)) = promises w.
Proof.
  intros Hv. rewrite (useStreamable_sync v k w Hv); simpl.
  repeat split; eauto.
Qed.

Lemma C3_sync_value_witness :
  isPromise (VArr [1; 2; 3]%Z) = false /\
  fst (useStreamable (VArr [1; 2; 3]%Z) "products" products_cached)
    = Ready (VArr [1; 2; 3]%Z).
Proof.
  split; [reflexivity|].
  apply (C3_sync_value_returned_directly (VArr [1; 2; 3]%Z) "products"
           products_cached).
  reflexivity.
Defined.

(** C10: the discriminant is [instanceof Promise], not a structural check
    for a [then] method.  Every value that is not an instance of the native
    [Promise] class is classified as synchronous and returned unchanged by
    [useStreamable]: it is not awaited ([use] and [Promise.resolve] are not
    called, no promise is built) and the cache is not touched.  A thenable
    that the [Promise] constructor did not build is such a value. *)
Theorem C10_thenable_is_synchronous (v : jsval) (k : string) (w : world)
    (id : nat) :
  (forall p, v <> VPromise p) ->
  isPromise v = false /\
  useStreamable v k w = (Ready v, logged w [ELog ["useStreamable"; k]]) /\
  isPromise (VThenable id) = false /\
  useStreamable (VThenable id) k w =
    (Ready (VThenable id), logged w [ELog ["useStreamable"; k]]).
Proof.
  intros Hv.
  assert (isPromise v = false) as Hs.
  { destruct v; try reflexivity. by destruct (Hv ref). }
  split; [exact Hs|].
  split; [by apply useStreamable_sync|].
  split; [reflexivity|].
  by apply useStreamable_sync.
Qed.

Lemma C10_thenable_witness :
  (forall p, VThenable 7 <> VPromise p) /\
  useStreamable (VThenable 7) "reviews" products_cached =
    (Ready (VThenable 7),
     logged products_cached [ELog ["useStreamable"; "reviews"]]).
Proof.
  split; [intros p; discriminate|].
  apply (C10_thenable_is_synchronous (VThenable 7) "reviews" products_cached 7).
  intros p; discriminate.
Defined.

(** ** Later values under a cached key *)

(** C1, as stated, fails: with a computation cached under "products" and
    fulfilled with 1, a later call with the synchronous value 2 and the key
    "products" returns 2, not the result 1 of the cached computation. *)
Lemma C1_later_sync_value_is_returned :
  promiseCache products_cached !! "products" = Some 0 /\
  state_of products_cached 0 = PFulfilled (VNum 1) /\
  isPromise (VNum 2) = false /\
  fst (useStreamable (VNum 2) "products" products_cached) = Ready (VNum 2) /\
  fst (useStreamable (VNum 2) "products" products_cached)
    <> outcome (state_of products_cached 0) 0.
Proof. vm_compute. repeat split; discriminate. Qed.

(** C1, amended: for every key [k] under which a computation [p] has
    already been cached, a later call with a promise [q] (any promise, the
    cached one or another) and the same key resolves the cached computation
    [p]: the later promise is ignored, the entry under [k] stays, and no
    wrapper is created.  A later synchronous value is not ignored: it is
    returned as it is. *)
Theorem C1_cached_computation_wins_over_later_promise
    (w : world) (k : string) (p q : loc) (v : jsval) :
  promiseCache w !! k = Some p ->
  isPromise v = false ->
  fst (useStreamable (VPromise q) k w) = outcome (state_of w p) p /\
  promiseCache (snd (useStreamable (VPromise q) k w)) = promiseCache w /\
  creations (trace (snd (useStreamable (VPromise q) k w)))
    = creations (trace w) /\
  fst (useStreamable v k w) = Ready v.
Proof.
  intros Hk Hv.
  rewrite (useStreamable_hit (VPromise q) k p w eq_refl Hk); simpl.
  rewrite creations_app; simpl.
  rewrite (useStreamable_sync v k w Hv); simpl.
  repeat split; lia.
Qed.

Lemma C1_cached_computation_witness :
  promiseCache products_cached !! "products" = Some 0 /\
  isPromise (VNum 2) = false /\
  fst (useStreamable (VPromise 5) "products" products_cached)
    = Ready (VNum 1).
Proof.
  split; [reflexivity|]. split; [reflexivity|].
  apply (C1_cached_computation_wins_over_later_promise
           products_cached "products" 0 5 (VNum 2)); reflexivity.
Defined.

(** ** A promise under a fresh key *)

(** C5: when the caller supplies a native promise [p] for a key [k] that
    has no entry yet, the resolver builds no promise of its own:
    [Promise.resolve] hands back [p] itself, the entry stored under [k] is
    [p], and the promise objects are what they were. *)
Theorem C5_fresh_key_stores_callers_promise (p : loc) (k : string) (w : world) :
  promiseCache w !! k = None ->
  Promise_resolve (VPromise p) w
    = (Ready p, logged w [EPromiseResolve (VPromise p)]) /\
  promiseCache (snd (useStreamable (VPromise p) k w))
    = <[k := p]> (promiseCache w) /\
  promiseCache (snd (useStreamable (VPromise p) k w)) !! k = Some p /\
  promises (snd (useStreamable (VPromise p) k w)) = promises w.
Proof.
  intros Hk. rewrite (useStreamable_miss p k w Hk); simpl.
  rewrite lookup_insert_eq. repeat split.
Qed.

Lemma C5_fresh_key_witness :
  promiseCache products_cached !! "reviews" = None /\
  promiseCache (snd (useStreamable (VPromise 0) "reviews" products_cached))
    !! "reviews" = Some 0.
Proof.
  split; [reflexivity|].
  apply (C5_fresh_key_stores_callers_promise 0 "reviews" products_cached).
  reflexivity.
Defined.

(** ** Once cached and settled *)

Lemma settle_state p st w :
  promises w !! p = Some PPending -> state_of (settle p st w) p = st.
Proof.
  intros Hp. unfold settle, state_of. rewrite Hp; simpl.
  by rewrite lookup_insert_eq.
Qed.

(** A settled computation cached under [k] decides every later resolution
    of a promise under [k], whatever the session does in between. *)
Lemma resolve_after_session w k p q acts :
  promiseCache w !! k = Some p ->
  settled (state_of w p) = true ->
  useStreamable (VPromise q) k (run acts w) =
    (outcome (state_of w p) p,
     logged (run acts w)
       [ELog ["useStreamable"; k]; EHas k; EGet k; EUse (VPromise p)]).
Proof.
  intros Hk Hp.
  rewrite (useStreamable_hit (VPromise q) k p (run acts w) eq_refl);
    [|by apply run_cache_grows].
  by rewrite (run_settled_kept acts w p Hp).
Qed.

Lemma outcome_settled st p : settled st = true -> is_pending (outcome st p) = false.
Proof. destruct st; simpl; congruence. Qed.

(** ** Pending computations *)

(** C4, as stated, fails for a key that already has an entry: promise 1 is
    pending, yet resolving it under "products" does not suspend, it returns
    the value 1 of the promise cached earlier; and after promise 1 fulfils
    with 5 the resolution still returns 1. *)
Lemma C4_pending_under_used_key_does_not_suspend :
  promises products_reused !! 1 = Some PPending /\
  fst (useStreamable (VPromise 1) "products" products_reused)
    = Ready (VNum 1) /\
  is_pending (fst (useStreamable (VPromise 1) "products" products_reused))
    = false /\
  fst (useStreamable (VPromise 1) "products"
         (step (AFulfill 1 (VNum 5))
            (snd (useStreamable (VPromise 1) "products" products_reused))))
    <> Ready (VNum 5).
Proof. vm_compute. repeat split; discriminate. Qed.

(** C4, amended: for every pending computation [p] and every key [k] that
    has no entry yet or whose entry is [p] itself, resolving [p] under [k]
    before it settles signals suspension with [p] as handle; once [p]
    fulfils with [v], every later resolution of a promise under [k]
    returns [v], whatever happens in between. *)
Theorem C4_pending_suspends_then_returns
    (w : world) (k : string) (p q : loc) (v : jsval) (acts : list action) :
  promises w !! p = Some PPending ->
  promiseCache w !! k = None \/ promiseCache w !! k = Some p ->
  fst (useStreamable (VPromise p) k w) = Pending p /\
  fst (useStreamable (VPromise q) k
         (run acts (step (AFulfill p v)
                      (snd (useStreamable (VPromise p) k w)))))
    = Ready v.
Proof.
  intros Hp Hk.
  assert (state_of w p = PPending) as Hst by (unfold state_of; by rewrite Hp).
  set (r := useStreamable (VPromise p) k w).
  assert (fst r = Pending p /\ promiseCache (snd r) !! k = Some p
          /\ promises (snd r) = promises w) as (Hr & Hc & Hps).
  { subst r. destruct Hk as [Hk|Hk].
    - rewrite (useStreamable_miss p k w Hk); simpl.
      rewrite Hst, lookup_insert_eq. auto.
    - rewrite (useStreamable_hit (VPromise p) k p w eq_refl Hk); simpl.
      rewrite Hst. auto. }
  split; [exact Hr|].
  assert (promises (snd r) !! p = Some PPending) as Hp' by (by rewrite Hps).
  simpl step.
  rewrite (resolve_after_session _ k p q acts).
  - simpl. by rewrite (settle_state p _ _ Hp').
  - by rewrite settle_cache.
  - by rewrite (settle_state p _ _ Hp').
Qed.

Lemma C4_pending_witness :
  promises products_reused !! 1 = Some PPending /\
  (promiseCache products_reused !! "reviews" = None \/
   promiseCache products_reused !! "reviews" = Some 1) /\
  fst (useStreamable (VPromise 1) "reviews" products_reused) = Pending 1 /\
  fst (useStreamable (VPromise 1) "reviews"
         (run [] (step (AFulfill 1 (VArr []))
                    (snd (useStreamable (VPromise 1) "reviews"
                            products_reused)))))
    = Ready (VArr []).
Proof.
  split; [reflexivity|]. split; [left; reflexivity|].
  apply (C4_pending_suspends_then_returns
           products_reused "reviews" 1 1 (VArr []) []).
  - reflexivity.
  - left; reflexivity.
Defined.

(** ** Rejection *)

(** C6: if the computation [p] cached under [k] rejects with [e], then a
    resolution of a promise under [k] fails with exactly [e]: the error
    leaves [useStreamable] as it came from [use].  Nothing is retried: the
    call creates no wrapper and leaves the entry and the promises alone,
    and a later resolution under [k] fails with [e] again. *)
Theorem C6_rejection_propagates_unchanged
    (w : world) (k : string) (p q q' : loc) (e : jsval)
    (acts1 acts2 : list action) :
  promiseCache w !! k = Some p ->
  promises w !! p = Some PPending ->
  let w1 := run acts1 (step (AReject p e) w) in
  let r1 := useStreamable (VPromise q) k w1 in
  let w2 := run acts2 (snd r1) in
  let r2 := useStreamable (VPromise q') k w2 in
  fst r1 = Failed e /\
  fst r2 = Failed e /\
  creations (trace (snd r1)) = creations (trace w1) /\
  creations (trace (snd r2)) = creations (trace w2) /\
  promiseCache (snd r1) = promiseCache w1 /\
  promises (snd r1) = promises w1.
Proof.
  intros Hk Hp w1 r1 w2 r2.
  set (w0 := step (AReject p e) w) in *.
  assert (promiseCache w0 !! k = Some p) as Hk0
    by (subst w0; simpl; by rewrite settle_cache).
  assert (state_of w0 p = PRejected e) as Hst0
    by (subst w0; simpl; by apply settle_state).
  assert (settled (state_of w0 p) = true) as Hs0 by (by rewrite Hst0).
  assert (r1 = (Failed e, logged w1
            [ELog ["useStreamable"; k]; EHas k; EGet k; EUse (VPromise p)]))
    as Hr1.
  { subst r1 w1. rewrite (resolve_after_session w0 k p q acts1 Hk0 Hs0).
    by rewrite Hst0. }
  assert (promiseCache w1 !! k = Some p) as Hk1
    by (subst w1; by apply run_cache_grows).
  assert (state_of w1 p = PRejected e) as Hst1
    by (subst w1; by rewrite (run_settled_kept acts1 w0 p Hs0)).
  assert (r2 = (Failed e, logged w2
            [ELog ["useStreamable"; k]; EHas k; EGet k; EUse (VPromise p)]))
    as Hr2.
  { subst r2 w2. rewrite (resolve_after_session (snd r1) k p q' acts2).
    - rewrite Hr1; simpl. unfold state_of in *; simpl. by rewrite Hst1.
    - by rewrite Hr1.
    - rewrite Hr1; simpl. unfold state_of in *; simpl. by rewrite Hst1. }
  rewrite Hr1, Hr2; simpl. rewrite !creations_app; simpl.
  repeat split; lia.
Qed.

Lemma C6_rejection_witness :
  promiseCache reviews_pending !! "reviews" = Some 1 /\
  promises reviews_pending !! 1 = Some PPending /\
  fst (useStreamable (VPromise 1) "reviews"
         (run [] (step (AReject 1 (VStr "boom")) reviews_pending)))
    = Failed (VStr "boom").
Proof.
  split; [reflexivity|]. split; [reflexivity|].
  exact (proj1 (C6_rejection_propagates_unchanged
                  reviews_pending "reviews" 1 1 1 (VStr "boom") [] []
                  eq_refl eq_refl)).
Defined.

(** ** Entries are permanent *)

(** C7, as stated, fails: the module has no operation that removes an
    entry.  With "products" cached, no session of the operations it offers
    (resolver calls, boundary renders, promises being built and settling)
    removes the entry, and none makes the cache step create a wrapper for
    that key again. *)
Lemma C7_no_session_invalidates :
  promiseCache products_cached !! "products" = Some 0 /\
  ~ (exists invalidate : list action,
       promiseCache (run invalidate products_cached) !! "products" = None \/
       exists s,
         creations (trace (snd (get_or_create "products" s
                                  (run invalidate products_cached))))
         <> creations (trace (run invalidate products_cached))).
Proof.
  assert (promiseCache products_cached !! "products" = Some 0) as H0
    by reflexivity.
  split; [exact H0|].
  intros (acts & [Hnone | (s & Hs)]).
  - rewrite (run_cache_grows acts products_cached _ _ H0) in Hnone.
    discriminate Hnone.
  - apply Hs.
    rewrite (get_or_create_hit "products" s 0);
      [|by apply run_cache_grows].
    simpl. rewrite creations_app; simpl. lia.
Qed.

(** C7, amended: the cache has no invalidate operation.  An entry stored
    under [k] is never removed or replaced by anything the module offers,
    so after any session the cache step for [k] returns the computation
    first stored under [k], reads the cache only ([has], [get]) and does
    not invoke the factory again. *)
Theorem C7_entry_is_never_removed
    (w : world) (k : string) (p : loc) (s : jsval) (acts : list action) :
  promiseCache w !! k = Some p ->
  promiseCache (run acts w) !! k = Some p /\
  get_or_create k s (run acts w)
    = (Ready (VPromise p), logged (run acts w) [EHas k; EGet k]) /\
  creations (trace (snd (get_or_create k s (run acts w))))
    = creations (trace (run acts w)).
Proof.
  intros Hk.
  assert (promiseCache (run acts w) !! k = Some p) as Hk'
    by (by apply run_cache_grows).
  rewrite (get_or_create_hit k s p _ Hk'); simpl.
  rewrite creations_app; simpl. repeat split; [assumption | lia].
Qed.

Lemma C7_entry_is_never_removed_witness :
  promiseCache products_cached !! "products" = Some 0 /\
  promiseCache
    (run [AResolve (VNum 4) "products"; ANewPromise;
          AResolve (VPromise 1) "products"] products_cached)
    !! "products" = Some 0.
Proof.
  split; [reflexivity|].
  apply (C7_entry_is_never_removed products_cached "products" 0 (VNum 4)
           [AResolve (VNum 4) "products"; ANewPromise;
            AResolve (VPromise 1) "products"]).
  reflexivity.
Defined.

(** ** One computation per key *)

(** C2: the cache step is idempotent.  Called twice with the same key, with
    whatever inputs, it returns the same stored computation both times, and
    the second call only reads the cache: the wrapper-creating step
    [Promise.resolve] runs at most once over the two calls.  Over a whole
    session whose render attempts use the key [k], from any state (module
    load included), [Promise.resolve] runs at most once; no call of the
    resolver builds a promise or changes one; and once the computation
    cached under [k] has settled, no later resolution under [k] suspends. *)
Theorem C2_one_computation_per_key
    (k : string) (s1 s2 s : jsval) (w w0 : world) (p0 : loc)
    (acts acts0 : list action) :
  Forall (about_key k) acts ->
  promiseCache w0 !! k = Some p0 ->
  settled (state_of w0 p0) = true ->
  (exists p,
     fst (get_or_create k s1 w) = Ready (VPromise p) /\
     get_or_create k s2 (snd (get_or_create k s1 w))
       = (Ready (VPromise p),
          logged (snd (get_or_create k s1 w)) [EHas k; EGet k]) /\
     creations (trace (snd (get_or_create k s2 (snd (get_or_create k s1 w)))))
       <= creations (trace w) + 1) /\
  creations (trace (run acts w)) <= creations (trace w) + 1 /\
  promises (snd (useStreamable s k w)) = promises w /\
  is_pending (fst (useStreamable s k (run acts0 w0))) = false.
Proof.
  intros Hacts Hk0 Hst0. split; [|split; [|split]].
  - destruct (promiseCache w !! k) as [p|] eqn:Hk.
    + exists p. rewrite (get_or_create_hit k s1 p w Hk); simpl.
      rewrite (get_or_create_hit k s2 p (logged w _) Hk); simpl.
      rewrite !creations_app; simpl.
      split; [reflexivity|]. split; [reflexivity|]. lia.
    + destruct (get_or_create_miss k s1 w Hk) as (p & ps & Hg).
      exists p. rewrite Hg; simpl.
      rewrite (get_or_create_hit k s2 p); [|simpl; apply lookup_insert_eq].
      simpl. rewrite !creations_app; simpl.
      split; [reflexivity|]. split; [reflexivity|]. lia.
  - pose proof (run_budget k acts w Hacts) as Hb.
    unfold budget_le, budget in Hb. revert Hb.
    destruct (promiseCache (run acts w) !! k), (promiseCache w !! k); lia.
  - apply useStreamable_same_promises.
  - destruct (isPromise s) eqn:Hs.
    + destruct s; try discriminate Hs.
      rewrite (resolve_after_session w0 k p0 ref acts0 Hk0 Hst0); simpl.
      by apply outcome_settled.
    + by rewrite (useStreamable_sync s k _ Hs).
Qed.

Lemma C2_one_computation_witness :
  Forall (about_key "products")
    [ANewPromise; AResolve (VPromise 0) "products"; AFulfill 0 (VNum 1);
     AResolve (VNum 2) "products"; ANewPromise;
     AResolve (VPromise 1) "products"] /\
  promiseCache products_cached !! "products" = Some 0 /\
  settled (state_of products_cached 0) = true /\
  creations (trace (run
    [ANewPromise; AResolve (VPromise 0) "products"; AFulfill 0 (VNum 1);
     AResolve (VNum 2) "products"; ANewPromise;
     AResolve (VPromise 1) "products"] initial))
    <= creations (trace initial) + 1.
Proof.
  assert (Forall (about_key "products")
    [ANewPromise; AResolve (VPromise 0) "products"; AFulfill 0 (VNum 1);
     AResolve (VNum 2) "products"; ANewPromise;
     AResolve (VPromise 1) "products"]) as Hall.
  { repeat constructor. }
  split; [exact Hall|]. split; [reflexivity|]. split; [reflexivity|].
  exact (proj1 (proj2 (C2_one_computation_per_key
    "products" (VNum 1) (VNum 2) (VPromise 1) initial products_cached 0
    _ [ANewPromise] Hall eq_refl eq_refl))).
Defined.

(** ** The boundary *)

Lemma useStreamable_own_promise p k w :
  promiseCache w !! k = None \/ promiseCache w !! k = Some p ->
  fst (useStreamable (VPromise p) k w) = outcome (state_of w p) p.
Proof.
  intros [Hk|Hk].
  - by rewrite (useStreamable_miss p k w Hk).
  - by rewrite (useStreamable_hit (VPromise p) k p w eq_refl Hk).
Qed.

(** C8, as stated, fails under a key that already holds another
    computation, in both directions.  Promise 1 is unresolved, yet the
    boundary for it under "products", which holds a fulfilled promise,
    shows the content and not the fallback; promise 0 is resolved, yet the
    boundary for it under "reviews", which holds the pending promise 1,
    shows the fallback. *)
Lemma C8_boundary_follows_the_key_not_the_value :
  state_of products_reused 1 = PPending /\
  fst (render (Stream {| value := VPromise 1;
                         fallback := Some (NText "fallback");
                         children := fun _ => NText "content";
                         queryKey := "products" |}) products_reused)
    = Ready ["content"] /\
  state_of reviews_pending 0 = PFulfilled (VNum 1) /\
  fst (render (Stream {| value := VPromise 0;
                         fallback := Some (NText "fallback");
                         children := fun _ => NText "content";
                         queryKey := "reviews" |}) reviews_pending)
    = Ready ["fallback"].
Proof. repeat split. Qed.

(** C8, amended: for every fallback and render function, and for a key
    that has no entry or whose entry is the value itself, the boundary
    wrapper shows the fallback while the value is unresolved and the
    render function's view of the resolved value once it is there.  A
    synchronous value [v] is resolved from the start: [UseStreamable] calls
    the resolver and returns the render function applied to [v], and
    [Stream] renders that inside the boundary.  For a promise [p],
    [UseStreamable] suspends on [p] while it is pending, returns the render
    function applied to [x] once it fulfilled with [x], and fails when it
    was rejected; the resolver element on its own passes the suspension to
    its parent, while [Stream], which nests it in the boundary, renders the
    fallback instead. *)
Theorem C8_Stream_shows_fallback_until_value_resolves
    (fb : option node) (ch : jsval -> node) (k : string) (w : world)
    (v : jsval) (p : loc) :
  isPromise v = false ->
  promiseCache w !! k = None \/ promiseCache w !! k = Some p ->
  let w0 := logged w [ELog ["useStreamable"; k]] in
  let w1 := snd (useStreamable (VPromise p) k w) in
  UseStreamable v ch k w = (Ready (ch v), w0) /\
  render (Stream {| value := v; fallback := fb; children := ch;
                    queryKey := k |}) w
    = Suspense (render (default NNull fb)) (render (ch v)) w0 /\
  UseStreamable (VPromise p) ch k w
    = (match state_of w p with
       | PPending => Pending p
       | PFulfilled x => Ready (ch x)
       | PRejected e => Failed e
       end, w1) /\
  render (NUseStreamable (VPromise p) k ch) w
    = match state_of w p with
      | PPending => (Pending p, w1)
      | PFulfilled x => render (ch x) w1
      | PRejected e => (Failed e, w1)
      end /\
  render (Stream {| value := VPromise p; fallback := fb; children := ch;
                    queryKey := k |}) w
    = match state_of w p with
      | PPending => render (default NNull fb) w1
      | PFulfilled x => Suspense (render (default NNull fb)) (render (ch x)) w1
      | PRejected e => (Failed e, w1)
      end.
Proof.
  intros Hv Hk w0 w1.
  pose proof (useStreamable_own_promise p k w Hk) as Hfst.
  split; [|split].
  - unfold UseStreamable, bind, ret.
    by rewrite (useStreamable_sync v k w Hv).
  - unfold Stream, Suspense. cbn [render value fallback children queryKey].
    unfold bind. by rewrite (useStreamable_sync v k w Hv).
  - subst w1. unfold Stream, UseStreamable, Suspense.
    cbn [render value fallback children queryKey]. unfold bind, ret.
    destruct (useStreamable (VPromise p) k w) as [r w1].
    cbn [fst snd] in *. subst r.
    destruct (state_of w p) as [|x|e]; cbn [outcome]; repeat split.
Qed.

Lemma C8_Stream_shows_fallback_witness :
  isPromise (VArr [1; 2]%Z) = false /\
  (promiseCache products_reused !! "reviews" = None \/
   promiseCache products_reused !! "reviews" = Some 1) /\
  state_of products_reused 1 = PPending /\
  fst (render (Stream {| value := VPromise 1;
                         fallback := Some (NText "fallback");
                         children := fun _ => NText "content";
                         queryKey := "reviews" |}) products_reused)
    = Ready ["fallback"].
Proof.
  split; [reflexivity|]. split; [left; reflexivity|]. split; [reflexivity|].
  exact (f_equal fst
    (proj2 (proj2 (proj2 (proj2
      (C8_Stream_shows_fallback_until_value_resolves
         (Some (NText "fallback")) (fun _ => NText "content") "reviews"
         products_reused (VArr [1; 2]%Z) 1 eq_refl
         (or_introl eq_refl))))))).
Defined.

(** The scenarios of the specification, on the product list. *)

Example products_available_no_fallback :
  fst (render (Final.ProductList
                 {| Final.products := VArr [1; 2; 3]%Z;
                    Final.display := Build_DisplayProps None None None;
                    Final.queryKey := "products" |}) initial)
    = Ready ["ProductCard"; "ProductCard"; "ProductCard"].
Proof. reflexivity. Qed.

Example products_pending_then_empty :
  let list := Final.ProductList
                {| Final.products := VPromise 0;
                   Final.display := Build_DisplayProps None None (Some 1);
                   Final.queryKey := "products" |} in
  let w0 := step ANewPromise initial in
  let w1 := snd (render list w0) in
  fst (render list w0) = Ready (replicate 8 "ProductCardSkeleton") /\
  fst (render list (step (AFulfill 0 (VArr [])) w1))
    = Ready ["ProductCardSkeleton"; "No products found";
             "Try browsing our complete catalog of products."].
Proof. split; reflexivity. Qed.

Example two_boundaries_reveal_independently :
  fst (render
         (NSeq (Final.ProductList
                  {| Final.products := VPromise 0;
                     Final.display := Build_DisplayProps None None None;
                     Final.queryKey := "products" |})
               (Final.ProductList
                  {| Final.products := VArr [7]%Z;
                     Final.display := Build_DisplayProps None None None;
                     Final.queryKey := "reviews" |}))
         (step ANewPromise initial))
    = Ready (app (replicate 8 "ProductCardSkeleton") ["ProductCard"]).
Proof. reflexivity. Qed.

(** ** Keys do not interfere *)

Lemma render_static n w : static n -> render n w = (Ready (markup n), w).
Proof.
  revert w.
  induction n as [| s | a IHa b IHb | fb IHfb c IHc | v k ch IH | e];
    simpl; intros w Hn.
  - reflexivity.
  - reflexivity.
  - destruct Hn as [Ha Hb]. unfold bind, ret.
    by rewrite (IHa w Ha), (IHb w Hb).
  - destruct Hn as [_ Hc]. by rewrite (IHc w Hc).
  - destruct Hn.
  - destruct Hn.
Qed.

Lemma render_Stream_static props w :
  static (default NNull (fallback props)) ->
  (forall x, static (children props x)) ->
  render (Stream props) w =
    (shown props (fst (useStreamable (value props) (queryKey props) w)),
     snd (useStreamable (value props) (queryKey props) w)).
Proof.
  intros Hfb Hch. simpl. unfold bind.
  destruct (useStreamable (value props) (queryKey props) w) as [[x|h|e] w1];
    simpl.
  - by rewrite (render_static _ w1 (Hch x)).
  - by rewrite (render_static _ w1 Hfb).
  - reflexivity.
Qed.

(** C9: cache operations are scoped to their key.  For distinct keys [k1]
    and [k2], a resolution attempt under [k1], with its cache read and its
    conditional write, leaves the entry for [k2] as it was and changes no
    promise, so a resolution under [k2] has the same outcome whether or not
    the attempt under [k1] came first, and the other way round.  The same
    holds for two boundaries around static views: what the boundary for
    [k2] shows does not depend on whether the boundary for [k1] was
    rendered before it. *)
Theorem C9_resolution_is_key_scoped
    (k1 k2 : string) (s1 s2 : jsval) (w : world) :
  k1 <> k2 ->
  promiseCache (snd (useStreamable s1 k1 w)) !! k2 = promiseCache w !! k2 /\
  fst (useStreamable s2 k2 (snd (useStreamable s1 k1 w)))
    = fst (useStreamable s2 k2 w) /\
  fst (useStreamable s1 k1 (snd (useStreamable s2 k2 w)))
    = fst (useStreamable s1 k1 w) /\
  forall fb1 fb2 ch1 ch2,
    let b1 := Stream {| value := s1; fallback := fb1; children := ch1;
                        queryKey := k1 |} in
    let b2 := Stream {| value := s2; fallback := fb2; children := ch2;
                        queryKey := k2 |} in
    static (default NNull fb1) -> static (default NNull fb2) ->
    (forall x, static (ch1 x)) -> (forall x, static (ch2 x)) ->
    fst (render b2 (snd (render b1 w))) = fst (render b2 w).
Proof.
  intros Hne.
  assert (forall (ka kb : string) sa sb, ka <> kb ->
            fst (useStreamable sb kb (snd (useStreamable sa ka w)))
              = fst (useStreamable sb kb w)) as Hfst.
  { intros ka kb sa sb Hab. apply useStreamable_fst_ext.
    - apply useStreamable_cache_frame. congruence.
    - apply useStreamable_same_promises. }
  split; [|split; [|split]].
  - apply useStreamable_cache_frame. congruence.
  - by apply Hfst.
  - apply Hfst. congruence.
  - intros fb1 fb2 ch1 ch2 b1 b2 Hfb1 Hfb2 Hch1 Hch2. subst b1 b2.
    rewrite !render_Stream_static by assumption. simpl.
    by rewrite Hfst.
Qed.

Lemma C9_key_scoped_witness :
  "products" <> "reviews" /\
  promiseCache (snd (useStreamable (VPromise 1) "products" products_reused))
    !! "reviews" = promiseCache products_reused !! "reviews".
Proof.
  split; [discriminate|].
  apply (C9_resolution_is_key_scoped "products" "reviews"
           (VPromise 1) (VArr [7]%Z) products_reused).
  discriminate.
Defined.

(** * Further properties of the code *)

(** ** What the resolver hands to [use] *)

Lemma Direct_useStreamable_promise p w :
  Direct.useStreamable (VPromise p) w =
    (outcome (state_of w p) p, logged w [EUse (VPromise p)]).
Proof. reflexivity. Qed.

Lemma Direct_useStreamable_sync s w :
  isPromise s = false -> Direct.useStreamable s w = (Ready s, w).
Proof. unfold Direct.useStreamable. by intros ->. Qed.

(** With a promise as input, the value read back from the cache is never
    [undefined]: after the call the key holds a promise, the one that was
    there before or else the caller's; [use] is called once, on that
    promise, and the result is that promise's state. *)
Theorem resolver_hands_use_the_cached_promise (q : loc) (k : string) (w : world) :
  exists p evs,
    p = default q (promiseCache w !! k) /\
    promiseCache (snd (useStreamable (VPromise q) k w)) !! k = Some p /\
    fst (useStreamable (VPromise q) k w) = outcome (state_of w p) p /\
    trace (snd (useStreamable (VPromise q) k w)) = app (trace w) evs /\
    uses evs = [VPromise p].
Proof.
  destruct (promiseCache w !! k) as [p|] eqn:Hk.
  - exists p. eexists.
    rewrite (useStreamable_hit (VPromise q) k p w eq_refl Hk); simpl.
    rewrite Hk. repeat (split; [reflexivity|]). reflexivity.
  - exists q. eexists. rewrite (useStreamable_miss q k w Hk); simpl.
    rewrite lookup_insert_eq. repeat (split; [reflexivity|]). reflexivity.
Qed.

(** The resolver has one source of failure: it fails with [e] only when
    its input is a promise and the promise held under the key after the
    call was rejected with [e].  A synchronous input never fails, and
    neither the cache nor [use] adds an error of its own. *)
Theorem resolver_fails_only_on_rejection
    (s : jsval) (k : string) (w : world) (e : jsval) :
  fst (useStreamable s k w) = Failed e ->
  isPromise s = true /\
  exists p,
    promiseCache (snd (useStreamable s k w)) !! k = Some p /\
    state_of w p = PRejected e.
Proof.
  resolver_paths s k w; simpl; intros Hr.
  - split; [reflexivity|]. exists q. split; [assumption|].
    destruct (state_of w q); simpl in Hr; congruence.
  - split; [reflexivity|]. exists ref. rewrite lookup_insert_eq.
    split; [reflexivity|].
    destruct (state_of w ref); simpl in Hr; congruence.
  - discriminate Hr.
Qed.

(** A world in which the promise held under "reviews" was rejected. *)
Lemma resolver_fails_only_on_rejection_witness :
  let w := step (AReject 1 (VStr "boom")) reviews_pending in
  fst (useStreamable (VPromise 1) "reviews" w) = Failed (VStr "boom") /\
  exists p,
    promiseCache (snd (useStreamable (VPromise 1) "reviews" w)) !! "reviews"
      = Some p /\
    state_of w p = PRejected (VStr "boom").
Proof.
  split; [reflexivity|].
  apply (resolver_fails_only_on_rejection (VPromise 1) "reviews"
           (step (AReject 1 (VStr "boom")) reviews_pending) (VStr "boom")).
  reflexivity.
Defined.

(** The resolver suspends only on the promise held under its key: when it
    signals suspension, its input is a promise, the handle is the promise
    the cache holds under the key after the call, and that promise is
    pending. *)
Theorem resolver_suspends_only_on_cached_promise
    (s : jsval) (k : string) (w : world) (h : loc) :
  fst (useStreamable s k w) = Pending h ->
  isPromise s = true /\
  promiseCache (snd (useStreamable s k w)) !! k = Some h /\
  state_of w h = PPending.
Proof.
  resolver_paths s k w; simpl; intros Hr.
  - destruct (state_of w q) eqn:Hst; simpl in Hr; try discriminate Hr.
    injection Hr as <-. auto.
  - destruct (state_of w ref) eqn:Hst; simpl in Hr; try discriminate Hr.
    injection Hr as <-. rewrite lookup_insert_eq. auto.
  - discriminate Hr.
Qed.

Lemma resolver_suspends_only_on_cached_promise_witness :
  fst (useStreamable (VPromise 1) "reviews" products_reused) = Pending 1 /\
  promiseCache (snd (useStreamable (VPromise 1) "reviews" products_reused))
    !! "reviews" = Some 1.
Proof.
  split; [reflexivity|].
  apply (resolver_suspends_only_on_cached_promise (VPromise 1) "reviews"
           products_reused 1).
  reflexivity.
Defined.

(** ** The keyed resolver against the first one *)

(** Adding the key and the cache does not change what is resolved as long
    as the key is used for one promise: for a synchronous input, or when
    whatever the cache holds under the key is the promise passed, the keyed
    [useStreamable] has the outcome of the keyless one, and neither changes
    a promise. *)
Theorem keyed_resolver_agrees_with_keyless
    (s : jsval) (k : string) (w : world) :
  isPromise s = false \/
    (forall q, promiseCache w !! k = Some q -> s = VPromise q) ->
  fst (useStreamable s k w) = fst (Direct.useStreamable s w) /\
  promises (snd (useStreamable s k w))
    = promises (snd (Direct.useStreamable s w)).
Proof.
  intros Hok. resolver_paths s k w.
  - destruct Hok as [Hf | Hsame]; [congruence|].
    rewrite (Hsame q eq_refl), Direct_useStreamable_promise. by simpl.
  - rewrite Direct_useStreamable_promise. by simpl.
  - rewrite (Direct_useStreamable_sync s w Hs). by simpl.
Qed.

Lemma keyed_resolver_agrees_with_keyless_witness :
  (isPromise (VPromise 0) = false \/
   forall q, promiseCache products_reused !! "products" = Some q ->
             VPromise 0 = VPromise q) /\
  fst (useStreamable (VPromise 0) "products" products_reused)
    = fst (Direct.useStreamable (VPromise 0) products_reused).
Proof.
  assert (forall q, promiseCache products_reused !! "products" = Some q ->
                    VPromise 0 = VPromise q) as Hsame.
  { intros q. change (Some 0 = Some q -> VPromise 0 = VPromise q).
    congruence. }
  split; [right; exact Hsame|].
  apply (keyed_resolver_agrees_with_keyless (VPromise 0) "products"
           products_reused).
  right; exact Hsame.
Defined.

(** Where the two part: a key that already holds another promise. *)
Example keyed_resolver_differs_on_reused_key :
  fst (useStreamable (VPromise 1) "products" products_reused) = Ready (VNum 1)
  /\ fst (Direct.useStreamable (VPromise 1) products_reused) = Pending 1.
Proof. split; reflexivity. Qed.

(** ** The resolver that wraps every value *)

Lemma Uncached_useStreamable_promise p w :
  Uncached.useStreamable (VPromise p) w =
    (outcome (state_of w p) p,
     logged w [EPromiseResolve (VPromise p); EUse (VPromise p)]).
Proof.
  unfold Uncached.useStreamable, Promise_resolve, use, emit, bind, ret,
    logged, state_of; simpl.
  by rewrite <- !app_assoc.
Qed.

Lemma Uncached_useStreamable_sync v w :
  isPromise v = false ->
  exists st,
    snd (Uncached.useStreamable v w) =
      World (<[fresh (dom (promises w)) := st]> (promises w))
        (promiseCache w)
        (app (trace w)
           [EPromiseResolve v; EUse (VPromise (fresh (dom (promises w))))]).
Proof.
  intros Hv.
  destruct v; try discriminate Hv;
    eexists;
    unfold Uncached.useStreamable, Promise_resolve, alloc, use, emit, bind,
      ret, state_of; simpl;
    rewrite <- !app_assoc; reflexivity.
Qed.

Lemma fresh_promise_unused w : promises w !! fresh (dom (promises w)) = None.
Proof. apply not_elem_of_dom, is_fresh. Qed.

(** Wrapping every value in [Promise.resolve] builds a promise on every
    call with a synchronous value: the call adds one promise that did not
    exist before, hands that new promise to [use], and never touches the
    cache. *)
Theorem uncached_resolver_builds_a_promise_per_call (v : jsval) (w : world) :
  isPromise v = false ->
  exists p st,
    promises w !! p = None /\
    promises (snd (Uncached.useStreamable v w)) = <[p := st]> (promises w) /\
    size (promises (snd (Uncached.useStreamable v w)))
      = S (size (promises w)) /\
    promiseCache (snd (Uncached.useStreamable v w)) = promiseCache w /\
    trace (snd (Uncached.useStreamable v w))
      = app (trace w) [EPromiseResolve v; EUse (VPromise p)].
Proof.
  intros Hv. destruct (Uncached_useStreamable_sync v w Hv) as [st Hw].
  exists (fresh (dom (promises w))), st. rewrite Hw; simpl.
  pose proof (fresh_promise_unused w) as Hnew.
  repeat split; try assumption.
  by apply map_size_insert_None.
Qed.

Lemma uncached_resolver_builds_a_promise_witness :
  isPromise (VArr [1; 2; 3]%Z) = false /\
  size (promises (snd (Uncached.useStreamable (VArr [1; 2; 3]%Z)
                         products_cached)))
    = S (size (promises products_cached)).
Proof.
  split; [reflexivity|].
  destruct (uncached_resolver_builds_a_promise_per_call
              (VArr [1; 2; 3]%Z) products_cached eq_refl)
    as (p & st & _ & _ & Hsize & _).
  exact Hsize.
Defined.

(** Render after render, the wrapping resolver keeps building promises for
    the same synchronous value: two successive calls hand [use] two
    different promises, and after [n] calls there are [n] more promises
    than before, where [n] calls of the keyed resolver build none. *)
Theorem uncached_resolver_never_reuses_a_promise
    (v : jsval) (k : string) (w : world) (n : nat) :
  isPromise v = false ->
  (exists p1 p2,
     p1 <> p2 /\
     trace (snd (Uncached.useStreamable v (snd (Uncached.useStreamable v w))))
       = app (trace w)
           [EPromiseResolve v; EUse (VPromise p1);
            EPromiseResolve v; EUse (VPromise p2)]) /\
  size (promises (Nat.iter n (fun w' => snd (Uncached.useStreamable v w')) w))
    = size (promises w) + n /\
  promises (Nat.iter n (fun w' => snd (useStreamable v k w')) w)
    = promises w.
Proof.
  intros Hv. split; [|split].
  - destruct (Uncached_useStreamable_sync v w Hv) as [st1 H1].
    destruct (Uncached_useStreamable_sync v
                (snd (Uncached.useStreamable v w)) Hv) as [st2 H2].
    exists (fresh (dom (promises w))),
      (fresh (dom (<[fresh (dom (promises w)) := st1]> (promises w)))).
    split; [|rewrite H2, H1; simpl; by rewrite <- app_assoc].
    intros Heq.
    apply (is_fresh (dom (<[fresh (dom (promises w)) := st1]> (promises w)))).
    rewrite <- Heq. apply elem_of_dom. rewrite lookup_insert_eq. eauto.
  - induction n as [|n IH]; simpl; [lia|].
    destruct (Uncached_useStreamable_sync v
                (Nat.iter n (fun w' => snd (Uncached.useStreamable v w')) w)
                Hv) as [st Hw].
    rewrite Hw; simpl.
    rewrite map_size_insert_None by apply fresh_promise_unused.
    rewrite IH. lia.
  - induction n as [|n IH]; simpl; [reflexivity|].
    by rewrite useStreamable_same_promises.
Qed.

Lemma uncached_resolver_never_reuses_witness :
  isPromise (VNum 4) = false /\
  size (promises (Nat.iter 3
          (fun w' => snd (Uncached.useStreamable (VNum 4) w')) initial))
    = size (promises initial) + 3.
Proof.
  split; [reflexivity|].
  exact (proj1 (proj2 (uncached_resolver_never_reuses_a_promise
                         (VNum 4) "products" initial 3 eq_refl))).
Defined.

(** On a native promise the wrapping resolver is the first one:
    [Promise.resolve] hands the promise back, so the outcome is the
    promise's state, no promise is built and the cache is not touched. *)
Theorem uncached_resolver_passes_promises_through (p : loc) (w : world) :
  fst (Uncached.useStreamable (VPromise p) w)
    = fst (Direct.useStreamable (VPromise p) w) /\
  fst (Uncached.useStreamable (VPromise p) w) = outcome (state_of w p) p /\
  promises (snd (Uncached.useStreamable (VPromise p) w)) = promises w /\
  promiseCache (snd (Uncached.useStreamable (VPromise p) w)) = promiseCache w.
Proof.
  rewrite Uncached_useStreamable_promise, Direct_useStreamable_promise.
  repeat split.
Qed.

(** ** Which keys get an entry *)

Lemma useStreamable_cache_within (K : string -> Prop) s k :
  K k -> preserves (cache_within K) (useStreamable s k).
Proof.
  intros HK w k'. resolver_paths s k w; simpl; auto.
  destruct (decide (k = k')) as [<-|Hne]; [by right|].
  rewrite lookup_insert_ne by assumption. by left.
Qed.

Lemma cache_within_refl K w : cache_within K w w.
Proof. intros k Hk. by left. Qed.

Lemma cache_within_trans K w1 w2 w3 :
  cache_within K w1 w2 -> cache_within K w2 w3 -> cache_within K w1 w3.
Proof.
  intros H12 H23 k Hk. destruct (H23 k Hk) as [H2|HK]; [|by right].
  by apply H12.
Qed.

Lemma step_cache_within K a w : action_keys K a -> cache_within K w (step a w).
Proof.
  destruct a; simpl; intros Ha.
  - intros k Hk. by left.
  - intros k. rewrite settle_cache. by left.
  - intros k. rewrite settle_cache. by left.
  - by apply useStreamable_cache_within.
  - apply (render_keeps (cache_within K) K).
    + apply cache_within_refl.
    + apply cache_within_trans.
    + intros s k Hk. by apply useStreamable_cache_within.
    + exact Ha.
Qed.

(** The cache gets entries only under keys that render attempts name: after
    a session whose resolver calls and views all use keys in [K], every
    entry was there before the session or is under a key in [K].  Promises
    being built and settling add nothing. *)
Theorem cache_gets_entries_only_under_used_keys
    (K : string -> Prop) (acts : list action) (w : world) (k : string) :
  Forall (action_keys K) acts ->
  is_Some (promiseCache (run acts w) !! k) ->
  is_Some (promiseCache w !! k) \/ K k.
Proof.
  intros Hacts.
  revert k. change (cache_within K w (run acts w)).
  apply (run_keeps (cache_within K) (action_keys K)).
  - apply cache_within_refl.
  - apply cache_within_trans.
  - intros a w0 Ha. by apply step_cache_within.
  - exact Hacts.
Qed.

Lemma cache_gets_entries_only_under_used_keys_witness :
  let boundary := Stream {| value := VPromise 0;
                            fallback := Some (NText "fallback");
                            children := fun _ => NText "content";
                            queryKey := "products" |} in
  let acts := [ANewPromise; AResolve (VPromise 0) "products";
               AFulfill 0 (VArr []); ARender boundary] in
  Forall (action_keys (fun k => k = "products")) acts /\
  is_Some (promiseCache (run acts initial) !! "products") /\
  (is_Some (promiseCache initial !! "products") \/ "products" = "products").
Proof.
  assert (Forall (action_keys (fun k => k = "products"))
            [ANewPromise; AResolve (VPromise 0) "products";
             AFulfill 0 (VArr []);
             ARender (Stream {| value := VPromise 0;
                                fallback := Some (NText "fallback");
                                children := fun _ => NText "content";
                                queryKey := "products" |})]) as Hall.
  { repeat constructor. }
  assert (is_Some (promiseCache
            (run [ANewPromise; AResolve (VPromise 0) "products";
                  AFulfill 0 (VArr []);
                  ARender (Stream {| value := VPromise 0;
                                     fallback := Some (NText "fallback");
                                     children := fun _ => NText "content";
                                     queryKey := "products" |})] initial)
            !! "products")) as Hsome.
  { exists 0. reflexivity. }
  split; [exact Hall|]. split; [exact Hsome|].
  exact (cache_gets_entries_only_under_used_keys
           (fun k => k = "products") _ initial "products" Hall Hsome).
Defined.

(** ** The product list *)

Lemma static_row n leaf : static (row n leaf).
Proof. induction n; simpl; auto. Qed.

Lemma markup_row n leaf : markup (row n leaf) = replicate n leaf.
Proof. induction n as [|n IH]; simpl; [reflexivity|]. by rewrite IH. Qed.

Lemma static_cards items : static (cards items).
Proof. induction items; simpl; auto. Qed.

Lemma markup_cards items :
  markup (cards items) = replicate (length items) "ProductCard".
Proof. induction items as [|i items IH]; simpl; [reflexivity|]. by rewrite IH. Qed.

Lemma render_empty_state d w :
  render (ProductListEmptyState
            (Some (default 8 (placeholderCount d)))
            (Some (default "No products found" (emptyStateTitle d)))
            (Some (default "Try browsing our complete catalog of products."
                     (emptyStateSubtitle d)))) w
    = (Ready (listing d []), w).
Proof.
  rewrite render_static.
  - unfold ProductListEmptyState, listing. cbn [markup optional_text default
      from_option]. by rewrite markup_row.
  - split; [apply static_row|]. split; exact I.
Qed.

(** Rendering what the render function returns never suspends and leaves
    the state alone; it fails exactly where the function throws. *)
Lemma render_ProductListBody d x w :
  render (ProductListBody d x) w = (listing_of d x, w).
Proof.
  destruct x as [|n|s|items|id|q]; try reflexivity.
  - unfold ProductListBody, listing_of.
    destruct (String.length s =? 0)%nat; [apply render_empty_state|].
    reflexivity.
  - destruct items as [|i items]; [apply render_empty_state|].
    unfold ProductListBody, listing_of, listing. cbn [length Nat.eqb].
    rewrite render_static by apply static_cards.
    by rewrite markup_cards.
Qed.

Lemma listing_of_not_pending d x : is_pending (listing_of d x) = false.
Proof.
  destruct x as [|n|s|items|id|q]; try reflexivity.
  unfold listing_of. by destruct (String.length s =? 0)%nat.
Qed.

Lemma static_ProductListSkeleton n : static (ProductListSkeleton n).
Proof. apply static_row. Qed.

Lemma render_ProductListSkeleton n w :
  render (ProductListSkeleton n) w
    = (Ready (replicate (default 8 n) "ProductCardSkeleton"), w).
Proof.
  rewrite render_static by apply static_ProductListSkeleton.
  unfold ProductListSkeleton. by rewrite markup_row.
Qed.

Lemma render_Final_ProductList props w :
  render (Final.ProductList props) w =
    (match fst (useStreamable (Final.products props) (Final.queryKey props) w)
     with
     | Ready x => listing_of (Final.display props) x
     | Pending _ => Ready (replicate 8 "ProductCardSkeleton")
     | Failed e => Failed e
     end,
     snd (useStreamable (Final.products props) (Final.queryKey props) w)).
Proof.
  unfold Final.ProductList, Stream.
  cbn [render value fallback children queryKey default]. unfold bind.
  destruct (useStreamable (Final.products props) (Final.queryKey props) w)
    as [[x|h|e] w1]; cbn [fst snd].
  - rewrite render_ProductListBody.
    pose proof (listing_of_not_pending (Final.display props) x) as Hnp.
    by destruct (listing_of (Final.display props) x).
  - apply render_ProductListSkeleton.
  - reflexivity.
Qed.

(** Given its products synchronously, [ProductList] shows them at once,
    whatever the cache holds under its key: one card per product, or, for
    an empty array, the empty state with [placeholderCount] placeholders
    and the two texts (8 and the default texts when not passed).  It never
    shows the skeleton, and it leaves the cache and the promises alone. *)
Theorem ProductList_shows_synchronous_products
    (props : Final.ProductListProps) (items : list Z) (w : world) :
  Final.products props = VArr items ->
  render (Final.ProductList props) w =
    (Ready (listing (Final.display props) items),
     logged w [ELog ["useStreamable"; Final.queryKey props]]).
Proof.
  intros Hp. rewrite render_Final_ProductList, Hp.
  by rewrite (useStreamable_sync (VArr items) _ w eq_refl).
Qed.

Lemma ProductList_shows_synchronous_products_witness :
  fst (render (Final.ProductList
                 {| Final.products := VArr [];
                    Final.display :=
                      {| emptyStateTitle := Some "Nothing here";
                         emptyStateSubtitle := None;
                         placeholderCount := Some 2 |};
                    Final.queryKey := "products" |}) products_cached)
    = Ready ["ProductCardSkeleton"; "ProductCardSkeleton"; "Nothing here";
             "Try browsing our complete catalog of products."].
Proof.
  exact (f_equal fst (ProductList_shows_synchronous_products
           {| Final.products := VArr [];
              Final.display :=
                {| emptyStateTitle := Some "Nothing here";
                   emptyStateSubtitle := None;
                   placeholderCount := Some 2 |};
              Final.queryKey := "products" |} [] products_cached eq_refl)).
Defined.

(** While its promise is pending under a key that has no entry yet,
    [ProductList] shows the skeleton, and the skeleton has 8 placeholders
    whatever [placeholderCount] the caller passed: the prop reaches the
    empty state only.  The promise is stored under the key. *)
Theorem ProductList_skeleton_has_eight_placeholders
    (props : Final.ProductListProps) (p : loc) (w : world) :
  Final.products props = VPromise p ->
  promiseCache w !! Final.queryKey props = None ->
  state_of w p = PPending ->
  fst (render (Final.ProductList props) w)
    = Ready (replicate 8 "ProductCardSkeleton") /\
  promiseCache (snd (render (Final.ProductList props) w))
    !! Final.queryKey props = Some p.
Proof.
  intros Hp Hk Hst. rewrite render_Final_ProductList, Hp.
  rewrite (useStreamable_miss p _ w Hk); simpl. rewrite Hst; simpl.
  by rewrite lookup_insert_eq.
Qed.

Lemma ProductList_skeleton_witness :
  fst (render (Final.ProductList
                 {| Final.products := VPromise 1;
                    Final.display :=
                      {| emptyStateTitle := None;
                         emptyStateSubtitle := None;
                         placeholderCount := Some 3 |};
                    Final.queryKey := "reviews" |}) products_reused)
    = Ready (replicate 8 "ProductCardSkeleton").
Proof.
  exact (proj1 (ProductList_skeleton_has_eight_placeholders
           {| Final.products := VPromise 1;
              Final.display :=
                {| emptyStateTitle := None;
                   emptyStateSubtitle := None;
                   placeholderCount := Some 3 |};
              Final.queryKey := "reviews" |} 1 products_reused
           eq_refl eq_refl eq_refl)).
Defined.

Lemma useStreamable_registers p k w :
  promiseCache w !! k = None \/ promiseCache w !! k = Some p ->
  promiseCache (snd (useStreamable (VPromise p) k w)) !! k = Some p.
Proof.
  intros [Hk|Hk].
  - rewrite (useStreamable_miss p k w Hk); simpl. apply lookup_insert_eq.
  - by rewrite (useStreamable_hit (VPromise p) k p w eq_refl Hk).
Qed.

(** The whole life of an asynchronous list: after [ProductList] was
    rendered with a pending promise, under a key with no entry or with that
    promise as entry, and the promise fulfilled with an array, every later
    render of the same list shows that array (cards, or the empty state),
    whatever else the session did in between. *)
Theorem ProductList_shows_products_once_fulfilled
    (props : Final.ProductListProps) (p : loc) (items : list Z)
    (acts : list action) (w : world) :
  Final.products props = VPromise p ->
  promises w !! p = Some PPending ->
  promiseCache w !! Final.queryKey props = None \/
    promiseCache w !! Final.queryKey props = Some p ->
  fst (render (Final.ProductList props)
         (run acts (step (AFulfill p (VArr items))
                      (snd (render (Final.ProductList props) w)))))
    = Ready (listing (Final.display props) items).
Proof.
  intros Hp Hpend Hk. rewrite !render_Final_ProductList, Hp. cbn [fst snd].
  set (k := Final.queryKey props).
  set (w1 := snd (useStreamable (VPromise p) k w)).
  assert (promiseCache w1 !! k = Some p) as Hk1
    by (by apply useStreamable_registers).
  assert (promises w1 !! p = Some PPending) as Hp1.
  { subst w1. by rewrite useStreamable_same_promises. }
  simpl step.
  rewrite (resolve_after_session (settle p (PFulfilled (VArr items)) w1)
             k p p acts).
  - cbn [fst]. by rewrite (settle_state p _ _ Hp1).
  - by rewrite settle_cache.
  - by rewrite (settle_state p _ _ Hp1).
Qed.

Lemma ProductList_shows_products_once_fulfilled_witness :
  let props := {| Final.products := VPromise 1;
                  Final.display := Build_DisplayProps None None None;
                  Final.queryKey := "reviews" |} in
  promises products_reused !! 1 = Some PPending /\
  fst (render (Final.ProductList props)
         (run [AResolve (VNum 3) "reviews"]
            (step (AFulfill 1 (VArr [4; 5]%Z))
               (snd (render (Final.ProductList props) products_reused)))))
    = Ready ["ProductCard"; "ProductCard"].
Proof.
  split; [reflexivity|].
  exact (ProductList_shows_products_once_fulfilled
           {| Final.products := VPromise 1;
              Final.display := Build_DisplayProps None None None;
              Final.queryKey := "reviews" |} 1 [4; 5]%Z
           [AResolve (VNum 3) "reviews"] products_reused
           eq_refl eq_refl (or_introl eq_refl)).
Defined.

(** A key used before decides what an asynchronous list shows: when the
    key holds a promise fulfilled with an array, [ProductList] given any
    other promise under that key shows that array, at once and after any
    further session, without regard to the promise it was given. *)
Theorem ProductList_under_used_key_shows_earlier_products
    (props : Final.ProductListProps) (p q : loc) (items : list Z)
    (acts : list action) (w : world) :
  Final.products props = VPromise q ->
  promiseCache w !! Final.queryKey props = Some p ->
  state_of w p = PFulfilled (VArr items) ->
  fst (render (Final.ProductList props) (run acts w))
    = Ready (listing (Final.display props) items) /\
  promiseCache (snd (render (Final.ProductList props) (run acts w)))
    !! Final.queryKey props = Some p.
Proof.
  intros Hq Hk Hst. rewrite !render_Final_ProductList, Hq. cbn [fst snd].
  rewrite (resolve_after_session w _ p q acts Hk) by (by rewrite Hst).
  cbn [fst snd]. rewrite Hst. split; [reflexivity|].
  simpl. by apply run_cache_grows.
Qed.

Lemma ProductList_under_used_key_witness :
  let props := {| Final.products := VPromise 1;
                  Final.display := Build_DisplayProps None None None;
                  Final.queryKey := "products" |} in
  let w := step (AFulfill 0 (VArr [9]%Z))
             (run [ANewPromise; AResolve (VPromise 0) "products";
                   ANewPromise] initial) in
  promiseCache w !! "products" = Some 0 /\
  state_of w 1 = PPending /\
  fst (render (Final.ProductList props) (run [] w)) = Ready ["ProductCard"].
Proof.
  split; [reflexivity|]. split; [reflexivity|].
  exact (proj1 (ProductList_under_used_key_shows_earlier_products
           {| Final.products := VPromise 1;
              Final.display := Build_DisplayProps None None None;
              Final.queryKey := "products" |} 0 1 [9]%Z []
           (step (AFulfill 0 (VArr [9]%Z))
              (run [ANewPromise; AResolve (VPromise 0) "products";
                    ANewPromise] initial))
           eq_refl eq_refl eq_refl)).
Defined.

(** ** The listings before the key *)

Lemma Direct_ProductList_promise d p w :
  Direct.ProductList {| Direct.products := VPromise p; Direct.display := d |} w
    = (match state_of w p with
       | PPending => Ready (replicate 8 "ProductCardSkeleton")
       | PFulfilled x => listing_of d x
       | PRejected e => Failed e
       end,
       logged w [EUse (VPromise p)]).
Proof.
  unfold Direct.ProductList, Direct.Stream, Direct.UseStreamable, Suspense,
    bind, ret. cbn [Direct.products Direct.display default].
  rewrite Direct_useStreamable_promise.
  destruct (state_of w p) as [|x|e]; cbn [outcome].
  - apply render_ProductListSkeleton.
  - rewrite render_ProductListBody.
    pose proof (listing_of_not_pending d x) as Hnp.
    by destruct (listing_of d x).
  - reflexivity.
Qed.

Lemma Direct_ProductList_array d items w :
  Direct.ProductList {| Direct.products := VArr items; Direct.display := d |} w
    = (Ready (listing d items), w).
Proof.
  unfold Direct.ProductList, Direct.Stream, Direct.UseStreamable, Suspense,
    bind, ret. cbn [Direct.products Direct.display default].
  rewrite (Direct_useStreamable_sync (VArr items) w eq_refl).
  by rewrite render_ProductListBody.
Qed.

(** Without a key, [ProductList] shows the state of the very promise it is
    given: the 8-placeholder skeleton while it is pending and, once it is
    fulfilled, what the render function makes of the value: the products
    for an array, the empty state for an empty array or an empty string,
    and a [TypeError] for any other value, which fails the render.  A
    rejection passes through as a failure.  The only call made is [use].
    Given an array, it shows the products and calls nothing. *)
Theorem keyless_ProductList_follows_its_promise
    (d : DisplayProps) (p : loc) (items : list Z) (w : world) :
  Direct.ProductList {| Direct.products := VPromise p; Direct.display := d |} w
    = (match state_of w p with
       | PPending => Ready (replicate 8 "ProductCardSkeleton")
       | PFulfilled (VArr fulfilled) => Ready (listing d fulfilled)
       | PFulfilled VUndefined => Failed length_of_undefined
       | PFulfilled (VStr s) =>
           if (String.length s =? 0)%nat then Ready (listing d [])
           else Failed map_is_not_a_function
       | PFulfilled _ => Failed map_is_not_a_function
       | PRejected e => Failed e
       end,
       logged w [EUse (VPromise p)]) /\
  Direct.ProductList {| Direct.products := VArr items; Direct.display := d |} w
    = (Ready (listing d items), w).
Proof.
  split; [|apply Direct_ProductList_array].
  rewrite Direct_ProductList_promise.
  destruct (state_of w p) as [|x|e]; [reflexivity| |reflexivity].
  destruct x; reflexivity.
Qed.

(** Every render of the page builds a new promise, so the first paint is
    always the heading followed by the 8-placeholder skeleton: the page
    never suspends or fails as a whole and never shows products by itself,
    whatever promises settled before; the cache is not touched. *)
Theorem Home_always_paints_heading_and_skeleton (w : world) :
  exists p,
    promises w !! p = None /\
    Direct.Home w =
      (Ready ("My Products" :: replicate 8 "ProductCardSkeleton"),
       World (<[p := PPending]> (promises w)) (promiseCache w)
         (app (trace w) [EUse (VPromise p)])).
Proof.
  exists (fresh (dom (promises w))). split; [apply fresh_promise_unused|].
  unfold Direct.Home, bind at 1. cbn [alloc].
  unfold bind at 1. cbn [render ret].
  unfold bind at 1.
  rewrite Direct_ProductList_promise. unfold state_of; cbn [promises].
  rewrite lookup_insert_eq. reflexivity.
Qed.

(** The [Stream] abstraction changes nothing on the page: the list built on
    [Stream] renders, in every state, exactly what the earlier list renders
    inside the boundary written by hand, with the same calls. *)
Theorem Stream_abstraction_renders_like_the_handwritten_wrapper
    (props : Direct.ProductListProps) (w : world) :
  Direct.ProductList props w = Inline.ProductListWrapper props w.
Proof.
  unfold Direct.ProductList, Direct.Stream, Direct.UseStreamable,
    Direct.useStreamable, Inline.ProductListWrapper, Inline.ProductList,
    Suspense, bind, ret.
  destruct (isPromise (Direct.products props)); [|reflexivity].
  destruct (use (Direct.products props) w) as [[x|h|e] w1]; reflexivity.
Qed.

(** Without a boundary of its own, the list takes its parent down with it:
    while the promise is pending, [ProductList] calling [use] signals
    suspension, and a page made of a heading and that list suspends as a
    whole, heading included.  Inside the wrapper the same list shows the
    skeleton instead. *)
Theorem unwrapped_ProductList_suspends_the_page
    (d : DisplayProps) (p : loc) (w : world) :
  state_of w p = PPending ->
  let props := {| Direct.products := VPromise p; Direct.display := d |} in
  fst (Inline.ProductList props w) = Pending p /\
  fst ((h1 <- render (NText "My Products");;
        list <- Inline.ProductList props;;
        ret (app h1 list)) w) = Pending p /\
  fst ((h1 <- render (NText "My Products");;
        list <- Inline.ProductListWrapper props;;
        ret (app h1 list)) w)
    = Ready ("My Products" :: replicate 8 "ProductCardSkeleton").
Proof.
  intros Hst props.
  assert (Inline.ProductList props w = (Pending p, logged w [EUse (VPromise p)]))
    as Hlist.
  { unfold Inline.ProductList, props. cbn [Direct.products isPromise].
    unfold bind at 1.
    change (use (VPromise p) w) with (Direct.useStreamable (VPromise p) w).
    by rewrite Direct_useStreamable_promise, Hst. }
  split; [by rewrite Hlist|]. split.
  - unfold bind at 1. cbn [render ret]. unfold bind at 1. by rewrite Hlist.
  - unfold bind at 1. cbn [render ret]. unfold bind at 1.
    unfold Inline.ProductListWrapper, Suspense. rewrite Hlist.
    by rewrite render_ProductListSkeleton.
Qed.

Lemma unwrapped_ProductList_suspends_the_page_witness :
  state_of products_reused 1 = PPending /\
  fst (Inline.ProductList
         {| Direct.products := VPromise 1;
            Direct.display := Build_DisplayProps None None None |}
         products_reused) = Pending 1.
Proof.
  split; [reflexivity|].
  exact (proj1 (unwrapped_ProductList_suspends_the_page
                  (Build_DisplayProps None None None) 1 products_reused
                  eq_refl)).
Defined.

(** ** The boundary and its siblings *)

(** A [Stream] boundary with static fallback and static content never lets
    the resolver's suspension reach its siblings: between static markup
    before and after it, the page shows that markup around the fallback
    while the resolver suspends and around the content once it returns; the
    page as a whole does not suspend. *)
Theorem Stream_never_suspends_its_siblings
    (props : StreamProps) (before after : node) (w : world) :
  static (default NNull (fallback props)) ->
  (forall x, static (children props x)) ->
  static before -> static after ->
  render (NSeq before (NSeq (Stream props) after)) w =
    (match shown props (fst (useStreamable (value props) (queryKey props) w))
     with
     | Ready mid => Ready (app (markup before) (app mid (markup after)))
     | Pending h => Pending h
     | Failed e => Failed e
     end,
     snd (useStreamable (value props) (queryKey props) w)) /\
  is_pending (fst (render (NSeq before (NSeq (Stream props) after)) w)) = false.
Proof.
  intros Hfb Hch Hb Ha.
  assert (render (NSeq before (NSeq (Stream props) after)) w =
    (match shown props (fst (useStreamable (value props) (queryKey props) w))
     with
     | Ready mid => Ready (app (markup before) (app mid (markup after)))
     | Pending h => Pending h
     | Failed e => Failed e
     end,
     snd (useStreamable (value props) (queryKey props) w))) as Heq.
  { change (render (NSeq before (NSeq (Stream props) after)) w)
      with (bind (render before)
              (fun va => bind
                 (bind (render (Stream props))
                    (fun vs => bind (render after)
                       (fun vb => ret (app vs vb))))
                 (fun vb => ret (app va vb))) w).
    unfold bind at 1. rewrite (render_static before w Hb).
    unfold bind at 1. unfold bind at 1.
    rewrite (render_Stream_static props w Hfb Hch).
    destruct (shown props
                (fst (useStreamable (value props) (queryKey props) w)))
      as [mid|h|e]; [|reflexivity..].
    unfold bind, ret. by rewrite (render_static after _ Ha). }
  split; [exact Heq|]. rewrite Heq. cbn [fst].
  destruct (fst (useStreamable (value props) (queryKey props) w));
    reflexivity.
Qed.

Lemma Stream_never_suspends_its_siblings_witness :
  fst (render (NSeq (NText "My Products")
                 (NSeq (Stream {| value := VPromise 1;
                                  fallback := Some (NText "fallback");
                                  children := fun _ => NText "content";
                                  queryKey := "reviews" |})
                       (NText "footer"))) products_reused)
    = Ready ["My Products"; "fallback"; "footer"].
Proof.
  exact (f_equal fst (proj1 (Stream_never_suspends_its_siblings
           {| value := VPromise 1;
              fallback := Some (NText "fallback");
              children := fun _ => NText "content";
              queryKey := "reviews" |}
           (NText "My Products") (NText "footer") products_reused
           I (fun _ => I) I I))).
Defined.
